(** * RayTracer: the path tracer, the scene generator, the row scheduler
      and the image writer of [main.cpp], with the utilities of
      [rtweekend.h].

    The C++ type [double] is kept abstract: the code is embedded over an
    interface [DoubleOps] listing the operations the two source files use.
    Two instances are given.  [binary64] is the IEEE 754 double of the
    program (through the Standard Library's [SpecFloat]): it computes, and
    the concrete runs below use it.  [real_ops] is exact arithmetic over
    [R]; it is there to show that the hypothesis [exact_arith], under which
    the few numeric bounds are stated, can be met.

    [int] is [Z]; no [int] computed by these functions leaves the 32-bit
    range for the inputs considered (row indices stay within the image
    height, the bounce depth only decreases). *)

From Stdlib Require Import ZArith Reals Lra Lia String Ascii.
From Stdlib Require Import SpecFloat DecimalString.
From stdpp Require Import base list.

Open Scope Z_scope.

(** ** The scalar interface *)

Class DoubleOps (double : Type) : Type := {
  d_of_int : Z -> double;                 (* conversion int -> double *)
  d_add : double -> double -> double;
  d_sub : double -> double -> double;
  d_mul : double -> double -> double;
  d_div : double -> double -> double;
  d_lt : double -> double -> bool;        (* operator< ; x > y is y < x *)
  d_sqrt : double -> double;              (* std::sqrt *)
  d_infinity : double;                    (* std::numeric_limits<double>::infinity() *)
  d_to_int : double -> Z                  (* static_cast<int> *)
}.

Declare Scope double_scope.
Delimit Scope double_scope with D.
Infix "+" := d_add : double_scope.
Infix "-" := d_sub : double_scope.
Infix "*" := d_mul : double_scope.
Infix "/" := d_div : double_scope.
Infix "<?" := d_lt : double_scope.
Notation "x >? y" := (d_lt y x) : double_scope.

(** A decimal literal [m * 10^-k] of the source, such as [0.001] = [dec 1 3].
    Both [m] and [10^k] are small integers, exact in a double, and IEEE
    division is correctly rounded, so that in [binary64] the quotient is the
    double nearest to the decimal, which is what the compiler produces. *)
Definition dec {double : Type} {ops : DoubleOps double} (m k : Z) : double :=
  (d_of_int m / d_of_int (10 ^ k))%D.

(** *** IEEE 754 binary64 *)

Module Binary64.

Definition prec : Z := 53.
Definition emax : Z := 1024.

(** Truncation toward zero.  Outside the range of [int], and on an
    infinity or a NaN, the conversion is undefined in C++; the value
    given here for those is the one x86-64 produces. *)
Definition INT_MIN : Z := - 2 ^ 31.

Definition trunc (x : spec_float) : Z :=
  match x with
  | S754_zero _ => 0
  | S754_finite s m e =>
      let a := if 0 <=? e then Z.pos m * 2 ^ e else Z.pos m / 2 ^ (- e) in
      let v := if s then - a else a in
      if (INT_MIN <=? v) && (v <? 2 ^ 31) then v else INT_MIN
  | _ => INT_MIN
  end.

#[export] Instance binary64 : DoubleOps spec_float := {
  d_of_int z := binary_normalize prec emax z 0 false;
  d_add := SFadd prec emax;
  d_sub := SFsub prec emax;
  d_mul := SFmul prec emax;
  d_div := SFdiv prec emax;
  d_lt := SFltb;
  d_sqrt := SFsqrt prec emax;
  d_infinity := S754_infinity false;
  d_to_int := trunc
}.

End Binary64.

(** *** Exact arithmetic *)

Module Ideal.

Definition Rtrunc (x : R) : Z :=
  if Rle_dec 0 x then Zfloor x else (- Zfloor (- x))%Z.

(** [R] has no point at infinity: the real that stands for the constant
    [infinity] is a parameter of the instance. *)
Definition real_ops (top : R) : DoubleOps R := {|
  d_of_int := IZR;
  d_add := Rplus;
  d_sub := Rminus;
  d_mul := Rmult;
  d_div := Rdiv;
  d_lt := fun x y => if Rlt_dec x y then true else false;
  d_sqrt := sqrt;
  d_infinity := top;
  d_to_int := Rtrunc
|}.

End Ideal.

(** [exact_arith val]: the operations of [double] are those of the reals
    under the reading [val]: no rounding, no overflow. *)
Record exact_arith {double : Type} {ops : DoubleOps double} (val : double -> R)
  : Prop := {
  val_of_int : forall z, val (d_of_int z) = IZR z;
  val_add : forall x y, val (x + y)%D = (val x + val y)%R;
  val_sub : forall x y, val (x - y)%D = (val x - val y)%R;
  val_mul : forall x y, val (x * y)%D = (val x * val y)%R;
  val_div : forall x y, val y <> 0%R -> val (x / y)%D = (val x / val y)%R;
  val_lt : forall x y, (x <? y)%D = true <-> (val x < val y)%R
}.

(** ** The C library's generator *)

(** [rand()] reads and updates a hidden state and returns an [int] between
    0 and [RAND_MAX]. *)
Class LibC : Type := {
  rand_state : Type;
  rand : rand_state -> Z * rand_state;
  RAND_MAX : Z
}.

(** A generator given by the list of the values it still has to return
    (each brought into [0 .. rand_max]; zero once the list is used up). *)
Definition draws_libc (rand_max : Z) : LibC := {|
  rand_state := list Z;
  rand := fun future =>
    match future with
    | [] => (0, [])
    | k :: future' => (Z.max 0 (Z.min k rand_max), future')
    end;
  RAND_MAX := rand_max
|}.

(** ** The process state and its monad *)

Section Process.

Context {libc : LibC}.


(** What the program reads and writes besides its arguments: the state
    of [rand()], the two progress globals, the error stream, and the file
    [image.ppm] ([None] until it is created; [writable] tells whether it
    can be opened for writing). *)
Record process : Type := mk_process {
  rng : rand_state;
  current_progress : Z;
  total_progress : Z;
  cerr : string;
  writable : bool;
  image_ppm : option string
}.

Definition M (A : Type) : Type := process -> A * process.

Definition ret {A} (a : A) : M A := fun s => (a, s).
Definition bind {A B} (m : M A) (k : A -> M B) : M B :=
  fun s => let (a, s') := m s in k a s'.

End Process.

Declare Scope monad_scope.
Delimit Scope monad_scope with M.
Notation "x <- c1 ;; c2" := (bind c1 (fun x => c2))
  (at level 100, c1 at next level, right associativity) : monad_scope.
Notation "c1 ;; c2" := (bind c1 (fun _ => c2))
  (at level 100, right associativity) : monad_scope.

(** ** The program *)

Section Model.

Context {double : Type} {ops : DoubleOps double} {libc : LibC}.

Local Open Scope monad_scope.

(** *** Vectors, rays, materials, spheres *)

(** Modelled from the spec: [vec3.h] and [ray.h] are not among the
    sources.  A [vec3] is three doubles with component-wise arithmetic;
    [point3] and [color] are other names of it; a ray is an origin and a
    direction. *)
Record vec3 : Type := mk_vec3 { x : double; y : double; z : double }.

Definition point3 : Type := vec3.
Definition color : Type := vec3.

(** The constructor called on [int] or [double] literals. *)
Definition vec3_int (a b c : Z) : vec3 :=
  mk_vec3 (d_of_int a) (d_of_int b) (d_of_int c).

(** The default constructor, [color()]. *)
Definition vec3_zero : vec3 := vec3_int 0 0 0.

Definition vec3_add (u v : vec3) : vec3 :=
  mk_vec3 (x u + x v)%D (y u + y v)%D (z u + z v)%D.
Definition vec3_sub (u v : vec3) : vec3 :=
  mk_vec3 (x u - x v)%D (y u - y v)%D (z u - z v)%D.
Definition vec3_mul (u v : vec3) : vec3 :=
  mk_vec3 (x u * x v)%D (y u * y v)%D (z u * z v)%D.
Definition vec3_scale (t : double) (v : vec3) : vec3 :=
  mk_vec3 (t * x v)%D (t * y v)%D (t * z v)%D.
Definition vec3_div (v : vec3) (t : double) : vec3 :=
  vec3_scale (d_of_int 1 / t)%D v.
Definition length_squared (v : vec3) : double :=
  (x v * x v + y v * y v + z v * z v)%D.
Definition length (v : vec3) : double := d_sqrt (length_squared v).
Definition unit_vector (v : vec3) : vec3 := vec3_div v (length v).

Record ray : Type := mk_ray { origin : point3; direction : vec3 }.

(** Modelled from the spec: [material.h] is not among the sources.  A
    material is one of three variants; each constructor keeps the
    arguments it is called with. *)
Inductive material : Type :=
| lambertian (albedo : color)
| metal (albedo : color) (fuzz : double)
| dielectric (index_of_refraction : double).

(** Modelled from the spec: [hittable.h] is not among the sources. *)
Record hit_record : Type := mk_hit_record {
  p : point3;
  normal : vec3;
  mat_ptr : material;
  t : double;
  front_face : bool
}.

Record sphere : Type := mk_sphere {
  center : point3;
  radius : double;
  sphere_mat : material
}.

(** The code of the headers that are not among the sources, taken as
    parameters.  The functions that draw random numbers read and return
    the generator's state. *)
Class Headers : Type := {
  (* sphere.h: bool sphere::hit(r, t_min, t_max, rec) *)
  sphere_hit : sphere -> ray -> double -> double -> option hit_record;
  (* material.h: bool material::scatter(r_in, rec, attenuation, scattered) *)
  scatter : material -> ray -> hit_record -> rand_state ->
            option (color * ray) * rand_state;
  (* camera.h *)
  camera : Type;
  make_camera : point3 -> point3 -> vec3 -> double -> double -> double ->
                double -> camera;
  get_ray : camera -> double -> double -> rand_state -> ray * rand_state;
  (* color.h *)
  format_color : color -> Z -> color
}.

Context {headers : Headers}.

(** The interface [hittable]: [hit] returns the record it fills when it
    returns [true]. *)
Class hittable (T : Type) : Type :=
  hit : T -> ray -> double -> double -> option hit_record.

#[export] Instance sphere_hittable : hittable sphere := sphere_hit.

(** Modelled from the spec: [hittable_list.h] is not among the sources.
    The scene is an ordered collection; [add] appends; [hit] asks every
    member in turn, keeps the last hit found and narrows [t_max] to that
    hit's [t] as it scans. *)
Definition hittable_list : Type := list sphere.

Definition add (world : hittable_list) (object : sphere) : hittable_list :=
  world ++ [object].

Definition hittable_list_hit (objects : hittable_list) (r : ray)
    (t_min t_max : double) : option hit_record :=
  fst (fold_left
         (fun (acc : option hit_record * double) object =>
            match hit object r t_min (snd acc) with
            | Some rec => (Some rec, t rec)
            | None => acc
            end)
         objects (None, t_max)).

#[export] Instance hittable_list_hittable : hittable hittable_list :=
  hittable_list_hit.

Definition with_rng {A} (f : rand_state -> A * rand_state) : M A :=
  fun s => let (a, g) := f (rng s) in
           (a, mk_process g (current_progress s) (total_progress s)
                          (cerr s) (writable s) (image_ppm s)).

Definition print_cerr (text : string) : M unit :=
  fun s => (tt, mk_process (rng s) (current_progress s) (total_progress s)
                           (cerr s ++ text) (writable s) (image_ppm s)).

Definition set_progress (cur tot : Z) : M unit :=
  fun s => (tt, mk_process (rng s) cur tot (cerr s) (writable s)
                           (image_ppm s)).

(** [for (int i = lo; i < hi; i++) a = body(i, a)], for a body that
    only updates local variables, and for one that also acts on the
    process. *)
Fixpoint iter_up {A} (n : nat) (i : Z) (body : Z -> A -> A) (a : A) : A :=
  match n with
  | O => a
  | S n' => iter_up n' (i + 1) body (body i a)
  end.
Definition for_up {A} (lo hi : Z) (body : Z -> A -> A) (a : A) : A :=
  iter_up (Z.to_nat (hi - lo)) lo body a.
Definition for_upM {A} (lo hi : Z) (body : Z -> A -> M A) (a : A) : M A :=
  fun s => for_up lo hi (fun i st => body i (fst st) (snd st)) (a, s).

(** [for (int j = hi; j >= lo; j--) a = body(j, a)] *)
Fixpoint iter_down {A} (n : nat) (j : Z) (body : Z -> A -> A) (a : A) : A :=
  match n with
  | O => a
  | S n' => iter_down n' (j - 1) body (body j a)
  end.
Definition for_down {A} (hi lo : Z) (body : Z -> A -> A) (a : A) : A :=
  iter_down (Z.to_nat (hi - lo + 1)) hi body a.
Definition for_downM {A} (hi lo : Z) (body : Z -> A -> M A) (a : A) : M A :=
  fun s => for_down hi lo (fun j st => body j (fst st) (snd st)) (a, s).

(** *** rtweekend.h *)

Definition infinity : double := d_infinity.

Definition random_double : M double :=
  with_rng (fun g => let (k, g') := rand g in
                     ((d_of_int k / (d_of_int RAND_MAX + dec 10 1))%D, g')).

(** [random_double(min, max)] *)
Definition random_double_in (min max : double) : M double :=
  r <- random_double ;; ret (min + (max - min) * r)%D.

Definition clamp (v min max : double) : double :=
  if (v <? min)%D then min
  else if (v >? max)%D then max
  else v.

(** Modelled from the spec: [color::random()] and [color::random(min,
    max)] of [vec3.h], three draws of the matching [random_double], taken
    here in the order of the components. *)
Definition color_random : M color :=
  a <- random_double ;; b <- random_double ;; c <- random_double ;;
  ret (mk_vec3 a b c).
Definition color_random_in (min max : double) : M color :=
  a <- random_double_in min max ;; b <- random_double_in min max ;;
  c <- random_double_in min max ;;
  ret (mk_vec3 a b c).

(** *** main.cpp: the path tracer *)

Definition MIN_HIT_LIMIT : double := dec 1 3.
Definition THREAD_COUNT : Z := 20.
Definition IMAGE_WIDTH : Z := 300.
Definition ASPECT_RATIO : double := dec 15 1.
Definition SAMPLES_PER_PIXEL : Z := 10.
Definition MAX_DEPTH : Z := 30.

(** The colour returned when nothing is hit. *)
Definition sky (r : ray) : color :=
  let unit_direction := unit_vector (direction r) in
  let t := (dec 5 1 * (y unit_direction + dec 10 1))%D in
  vec3_add (vec3_scale (dec 10 1 - t)%D (mk_vec3 (dec 10 1) (dec 10 1) (dec 10 1)))
           (vec3_scale t (mk_vec3 (dec 5 1) (dec 7 1) (dec 10 1))).

(** [ray_color] with a bound on the number of nested calls: [None] when
    [fuel] activations do not suffice. *)
Fixpoint ray_color_fuel {W} `{!hittable W} (fuel : nat) (r : ray) (world : W)
    (depth : Z) (s : process) : option (color * process) :=
  match fuel with
  | O => None
  | S fuel' =>
      if depth <=? 0 then Some (vec3_int 0 0 0, s)
      else
        match hit world r MIN_HIT_LIMIT infinity with
        | Some rec =>
            let (res, s1) := with_rng (scatter (mat_ptr rec) r rec) s in
            match res with
            | Some (attenuation, scattered) =>
                match ray_color_fuel fuel' scattered world (depth - 1) s1 with
                | Some (c, s2) => Some (vec3_mul attenuation c, s2)
                | None => None
                end
            | None => Some (vec3_int 0 0 0, s1)
            end
        | None => Some (sky r, s)
        end
  end.

(** [depth] activations below the first always suffice (see
    [ray_color_fuel_enough]); the last branch is never taken. *)
Definition ray_color {W} `{!hittable W} (r : ray) (world : W) (depth : Z)
    : M color :=
  fun s =>
    match ray_color_fuel (S (Z.to_nat depth)) r world depth s with
    | Some cs => cs
    | None => (vec3_int 0 0 0, s)
    end.

(** *** main.cpp: the scene generator *)

Definition random_scene : M hittable_list :=
  let world : hittable_list := [] in
  let ground_material := lambertian (mk_vec3 (dec 5 1) (dec 5 1) (dec 5 1)) in
  let world :=
    add world (mk_sphere (vec3_int 0 (-1000) 0) (d_of_int 1000) ground_material) in
  world <-
    for_upM (-3) 3 (fun a world =>
      for_upM (-3) 3 (fun b world =>
        choose_mat <- random_double ;;
        rx <- random_double ;;
        rz <- random_double ;;
        let center : point3 :=
          mk_vec3 (d_of_int a + dec 9 1 * rx)%D (dec 2 1)
                  (d_of_int b + dec 9 1 * rz)%D in
        if (length (vec3_sub center
                      (mk_vec3 (d_of_int 4) (dec 2 1) (d_of_int 0)))
            >? dec 9 1)%D
        then
          if (choose_mat <? dec 8 1)%D then
            (* diffuse *)
            c1 <- color_random ;;
            c2 <- color_random ;;
            let albedo := vec3_mul c1 c2 in
            ret (add world (mk_sphere center (dec 2 1) (lambertian albedo)))
          else if (choose_mat <? dec 95 2)%D then
            (* metal *)
            albedo <- color_random_in (dec 5 1) (d_of_int 1) ;;
            fuzz <- random_double_in (d_of_int 0) (dec 5 1) ;;
            ret (add world (mk_sphere center (dec 2 1) (metal albedo fuzz)))
          else
            (* glass *)
            ret (add world (mk_sphere center (dec 2 1) (dielectric (dec 15 1))))
        else ret world) world) world ;;
  let material1 := dielectric (dec 15 1) in
  let world := add world (mk_sphere (vec3_int 0 1 0) (dec 10 1) material1) in
  let material2 := lambertian (mk_vec3 (dec 4 1) (dec 2 1) (dec 1 1)) in
  let world := add world (mk_sphere (vec3_int (-4) 1 0) (dec 10 1) material2) in
  let material3 := metal (mk_vec3 (dec 7 1) (dec 6 1) (dec 5 1)) (dec 0 1) in
  let world := add world (mk_sphere (vec3_int 4 1 0) (dec 10 1) material3) in
  ret world.

(** *** main.cpp: the pixel buffer *)

(** [color**]: the rows, each a list of cells.  A row pointer that is
    still null is the empty row.  An access out of the bounds is undefined
    in C++: here such a store changes nothing and such a read gives the
    zero colour; the program makes neither. *)
Local Abbreviation matrix := (list (list color)) (only parsing).

Definition store (arr : matrix) (j i : Z) (v : color) : matrix :=
  if (0 <=? j) && (0 <=? i)
  then alter (fun row => <[Z.to_nat i := v]> row) (Z.to_nat j) arr
  else arr.

Definition fetch (arr : matrix) (j i : Z) : color :=
  if (0 <=? j) && (0 <=? i)
  then match arr !! Z.to_nat j with
       | Some row => match row !! Z.to_nat i with
                     | Some v => v
                     | None => vec3_zero
                     end
       | None => vec3_zero
       end
  else vec3_zero.

Definition image_matrix (width height : Z) : matrix :=
  let arr : matrix := replicate (Z.to_nat height) [] in
  for_down (height - 1) 0 (fun j arr =>
    let arr := <[Z.to_nat j := replicate (Z.to_nat width) (vec3_int 0 0 0)]> arr in
    for_up 0 width (fun i arr => store arr j i vec3_zero) arr) arr.

(** *** main.cpp: the render scheduler *)

Definition newline : string := String "010" "".
Definition carriage_return : string := String "013" "".

(** [stream << n] for an [int]. *)
Definition string_of_int (n : Z) : string := NilZero.string_of_int (Z.to_int n).

Definition update_progress : M unit :=
  fun s =>
    let cur := current_progress s + 1 in
    print_cerr (carriage_return ++ "Processing row: " ++ string_of_int cur
                ++ "/" ++ string_of_int (total_progress s) ++ " ")
               (mk_process (rng s) cur (total_progress s) (cerr s)
                           (writable s) (image_ppm s)).

Definition process_matrix_rows (start_row end_row image_width image_height : Z)
    (output_matrix : matrix) (samples_per_pixel max_depth : Z)
    (world : hittable_list) (cam : camera) : M matrix :=
  for_upM start_row (end_row + 1) (fun j output_matrix =>
    update_progress ;;
    for_upM 0 image_width (fun i output_matrix =>
      pixel_color <-
        for_upM 0 samples_per_pixel (fun _ pixel_color =>
          ru <- random_double ;;
          let u := ((d_of_int i + ru) / d_of_int (image_width - 1))%D in
          rv <- random_double ;;
          let v := ((d_of_int j + rv) / d_of_int (image_height - 1))%D in
          r <- with_rng (get_ray cam u v) ;;
          c <- ray_color r world max_depth ;;
          ret (vec3_add pixel_color c)) (vec3_int 0 0 0) ;;
      ret (store output_matrix j i (format_color pixel_color samples_per_pixel)))
      output_matrix) output_matrix.

(** The threads that [multithreaded_raytracing] starts, each given by
    the [start_row] and [end_row] it is started with, in the order of
    [thread_list].  ([thread_count = 0] divides by zero in C++; [Z.quot]
    gives 0.) *)
Definition thread_list (thread_count image_height : Z) : list (Z * Z) :=
  let cur_row := 0 in
  let row_segment := image_height ÷ thread_count in
  snd (for_down (thread_count - 1) 0
         (fun _ (st : Z * list (Z * Z)) =>
            let (cur_row, threads) := st in
            (cur_row + row_segment,
             threads ++ [(cur_row, cur_row + row_segment - 1)]))
         (cur_row, [])).

(** The threads are run one after the other, each to its end, in the
    order they were started: one of the schedules the program admits.
    [multithreaded_raytracing_in], further down, runs them in any other
    order; what depends on that order (the draws each thread gets from the
    shared [rand()], the order of the progress lines) is stated there. *)
Definition multithreaded_raytracing (thread_count image_width image_height : Z)
    (output_matrix : matrix) (samples_per_pixel max_depth : Z)
    (world : hittable_list) (cam : camera) : M matrix :=
  fold_left
    (fun (run : M matrix) (th : Z * Z) =>
       output_matrix <- run ;;
       process_matrix_rows (fst th) (snd th) image_width image_height
         output_matrix samples_per_pixel max_depth world cam)
    (thread_list thread_count image_height)
    (ret output_matrix).

(** *** main.cpp: main *)

(** [outdata.open("image.ppm")], returning whether the stream is good. *)
Definition open_outdata : M bool :=
  fun s =>
    if writable s
    then (true, mk_process (rng s) (current_progress s) (total_progress s)
                           (cerr s) (writable s) (Some ""%string))
    else (false, s).

(** [outdata << text] *)
Definition print_outdata (text : string) : M unit :=
  fun s =>
    (tt, mk_process (rng s) (current_progress s) (total_progress s) (cerr s)
           (writable s)
           (match image_ppm s with
            | Some contents => Some (contents ++ text)%string
            | None => None
            end)).

Definition pixel_line (c : color) : string :=
  string_of_int (d_to_int (x c)) ++ " " ++ string_of_int (d_to_int (y c))
  ++ " " ++ string_of_int (d_to_int (z c)) ++ newline.

(** [main], with the values of the macros as arguments; the result is the
    exit status.  The timing and the two closing lines on the standard
    output are left out. *)
Definition main_with (thread_count image_width : Z) (aspect_ratio : double)
    (samples_per_pixel max_depth : Z) : M Z :=
  (* image *)
  let image_height := d_to_int (d_of_int image_width / aspect_ratio)%D in
  (* world *)
  world <- random_scene ;;
  (* camera *)
  let lookfrom : point3 := vec3_int 13 2 3 in
  let lookat : point3 := vec3_int 0 0 0 in
  let vup := vec3_int 0 1 0 in
  let dist_to_focus := dec 100 1 in
  let aperture := dec 1 1 in
  let cam := make_camera lookfrom lookat vup (d_of_int 20) aspect_ratio
               aperture dist_to_focus in
  (* initialise progress *)
  set_progress 0 image_height ;;
  (* render *)
  let output_matrix := image_matrix image_width image_height in
  output_matrix <-
    multithreaded_raytracing thread_count image_width image_height
      output_matrix samples_per_pixel max_depth world cam ;;
  (* setup output file stream *)
  good <- open_outdata ;;
  if negb good then
    print_cerr ("Error: output file could not be opened." ++ newline) ;;
    ret 1                                                   (* exit(1) *)
  else
    (* dump output *)
    print_outdata ("P3" ++ newline ++ string_of_int image_width ++ " "
                   ++ string_of_int image_height ++ newline ++ "255" ++ newline) ;;
    for_downM (image_height - 1) 0 (fun j _ =>
      print_cerr (carriage_return ++ "Storing row: " ++ string_of_int j ++ " ") ;;
      for_upM 0 image_width (fun i _ =>
        print_outdata (pixel_line (fetch output_matrix j i))) tt) tt ;;
    print_cerr (newline ++ "Done." ++ newline) ;;
    ret 0.

Definition main : M Z :=
  main_with THREAD_COUNT IMAGE_WIDTH ASPECT_RATIO SAMPLES_PER_PIXEL MAX_DEPTH.

End Model.

Arguments vec3 : clear implicits.
Arguments point3 : clear implicits.
Arguments color : clear implicits.
Arguments ray : clear implicits.
Arguments material : clear implicits.
Arguments hit_record : clear implicits.
Arguments sphere : clear implicits.
Arguments hittable_list : clear implicits.
Arguments Headers double {libc}.
Arguments hittable : clear implicits.

Abbreviation matrix D := (list (list (color D))) (only parsing).

(** ** Vocabulary of the properties *)

(** The rows a thread started with [(start_row, end_row)] works on: those
    the outer loop of [process_matrix_rows] visits. *)
Definition band_rows (th : Z * Z) : list Z :=
  seqZ (fst th) (snd th + 1 - fst th).

(** The threads whose band holds row [j]. *)
Definition workers_of_row (threads : list (Z * Z)) (j : Z) : list (Z * Z) :=
  filter (fun th => fst th <= j <= snd th) threads.


(** The text of a file as its lines: [unlines] ends each line with a
    newline; [lines] cuts a text after each newline (and drops an
    unfinished last line). *)
Definition unlines (ls : list string) : string :=
  fold_right (fun l text => l ++ newline ++ text)%string ""%string ls.

Fixpoint lines (text : string) : list string :=
  match text with
  | EmptyString => []
  | String c rest =>
      if Ascii.eqb c "010" then ""%string :: lines rest
      else match lines rest with
           | [] => []
           | l :: ls => String c l :: ls
           end
  end.

Fixpoint no_newline (text : string) : Prop :=
  match text with
  | EmptyString => True
  | String c rest => c <> "010"%char /\ no_newline rest
  end.

Section Vocabulary.

Context {double : Type} {ops : DoubleOps double} {libc : LibC}
        {headers : Headers double}.

(** The height [main] derives from the width and the aspect ratio. *)
Definition height_of (image_width : Z) (aspect_ratio : double) : Z :=
  d_to_int (d_of_int image_width / aspect_ratio)%D.

(** The part of [main] up to the end of the render: it returns the
    buffer the workers have filled. *)
Definition render (thread_count image_width : Z) (aspect_ratio : double)
    (samples_per_pixel max_depth : Z) : M (matrix double) :=
  (let image_height := height_of image_width aspect_ratio in
   world <- random_scene ;;
   let cam := make_camera (vec3_int 13 2 3) (vec3_int 0 0 0) (vec3_int 0 1 0)
                (d_of_int 20) aspect_ratio (dec 1 1) (dec 100 1) in
   set_progress 0 image_height ;;
   multithreaded_raytracing thread_count image_width image_height
     (image_matrix image_width image_height) samples_per_pixel max_depth
     world cam)%M.

(** The image format, in the words of the specification: three header
    lines, then one line per pixel, the rows from the top of the picture
    (the last row of the buffer) to the bottom, each row from left to
    right; a pixel line is its three channels as integers, separated by
    spaces. *)
Definition channels (c : color double) : Z * Z * Z :=
  (d_to_int (x c), d_to_int (y c), d_to_int (z c)).

Definition pixel_text (c : color double) : string :=
  (string_of_int (d_to_int (x c)) ++ " " ++ string_of_int (d_to_int (y c))
   ++ " " ++ string_of_int (d_to_int (z c)))%string.

Definition pixels_top_down (width height : Z) (arr : matrix double)
    : list (color double) :=
  concat ((fun j => (fun i => fetch arr j i) <$> seqZ 0 width)
            <$> reverse (seqZ 0 height)).

Definition ppm_lines (width height : Z) (arr : matrix double) : list string :=
  "P3"%string
  :: (string_of_int width ++ " " ++ string_of_int height)%string
  :: "255"%string
  :: (pixel_text <$> pixels_top_down width height arr).

(** A stored channel that prints as an integer of [0, 255]. *)
Definition channel_ok (v : double) : Prop := 0 <= d_to_int v <= 255.
Definition color_ok (c : color double) : Prop :=
  channel_ok (x c) /\ channel_ok (y c) /\ channel_ok (z c).

End Vocabulary.

Section Effects.

Context {libc : LibC}.

(** [s] has the file system of [s0]: the same [image.ppm], writable or
    not as in [s0]. *)
Definition files_as (s0 s : process) : Prop :=
  writable s = writable s0 /\ image_ppm s = image_ppm s0.

(** [m] leaves the file system alone and returns a value in [P]. *)
Definition keeps {A} (s0 : process) (P : A -> Prop) (m : M A) : Prop :=
  forall s, files_as s0 s -> P (fst (m s)) /\ files_as s0 (snd (m s)).

(** [s] after [err] went to the error stream and [out] to the open
    file. *)
Definition appended (err out : string) (s : process) : process :=
  mk_process (rng s) (current_progress s) (total_progress s)
    (cerr s ++ err) (writable s)
    (match image_ppm s with
     | Some contents => Some (contents ++ out)%string
     | None => None
     end).

End Effects.

Section SceneVocabulary.

Context {double : Type} {ops : DoubleOps double} {libc : LibC}.

(** A value [random_double()] can return: [k / (RAND_MAX + 1.0)] for a
    [k] that [rand()] can return. *)
Definition is_draw (v : double) : Prop :=
  exists k, 0 <= k <= RAND_MAX
            /\ v = (d_of_int k / (d_of_int RAND_MAX + dec 10 1))%D.

(** A value [random_double(min, max)] can return. *)
Definition is_draw_in (min max v : double) : Prop :=
  exists r, is_draw r /\ v = (min + (max - min) * r)%D.

Definition is_color (draw : double -> Prop) (c : color double) : Prop :=
  draw (x c) /\ draw (y c) /\ draw (z c).

(** The scene in the words of the specification. *)
Definition ground_sphere : sphere double :=
  mk_sphere (vec3_int 0 (-1000) 0) (d_of_int 1000)
    (lambertian (mk_vec3 (dec 5 1) (dec 5 1) (dec 5 1))).

Definition feature_spheres : list (sphere double) :=
  [ mk_sphere (vec3_int 0 1 0) (dec 10 1) (dielectric (dec 15 1));
    mk_sphere (vec3_int (-4) 1 0) (dec 10 1)
      (lambertian (mk_vec3 (dec 4 1) (dec 2 1) (dec 1 1)));
    mk_sphere (vec3_int 4 1 0) (dec 10 1)
      (metal (mk_vec3 (dec 7 1) (dec 6 1) (dec 5 1)) (dec 0 1)) ].

Definition feature_point : point3 double :=
  mk_vec3 (d_of_int 4) (dec 2 1) (d_of_int 0).

(** The material of a small sphere for the draw [choose_mat]. *)
Definition small_material (choose_mat : double) (m : material double) : Prop :=
  if (choose_mat <? dec 8 1)%D then
    exists c1 c2, is_color is_draw c1 /\ is_color is_draw c2
                  /\ m = lambertian (vec3_mul c1 c2)
  else if (choose_mat <? dec 95 2)%D then
    exists albedo fuzz,
      is_color (is_draw_in (dec 5 1) (d_of_int 1)) albedo
      /\ is_draw_in (d_of_int 0) (dec 5 1) fuzz
      /\ m = metal albedo fuzz
  else m = dielectric (dec 15 1).

(** What the grid point [(a, b)] adds to the scene: one sphere of radius
    0.2 at the jittered centre when that centre is farther than 0.9 from
    the feature point, nothing otherwise. *)
Definition grid_cell (a b : Z) (cell : list (sphere double)) : Prop :=
  exists choose_mat rx rz,
    is_draw choose_mat /\ is_draw rx /\ is_draw rz
    /\ let center : point3 double :=
          mk_vec3 (d_of_int a + dec 9 1 * rx)%D (dec 2 1)
                  (d_of_int b + dec 9 1 * rz)%D in
       if (length (vec3_sub center feature_point) >? dec 9 1)%D
       then exists m, small_material choose_mat m
                      /\ cell = [mk_sphere center (dec 2 1) m]
       else cell = [].

(** The grid points [(a, b)], [a] and [b] from -3 to 2, in the order
    they are visited; [grid_rows n] has those of the first [n] values of
    [a]. *)
Definition grid_rows (n : Z) : list (Z * Z) :=
  concat ((fun a => (fun b => (a, b)) <$> seqZ (-3) 6) <$> seqZ (-3) n).

Definition grid : list (Z * Z) := grid_rows 6.

Definition scene_spec (world : hittable_list double) : Prop :=
  exists cells : list (list (sphere double)),
    Forall2 (fun ab cell => grid_cell (fst ab) (snd ab) cell) grid cells
    /\ world = [ground_sphere] ++ concat cells ++ feature_spheres.

(** [m] returns a value in [Q] whatever the state it runs from. *)
Definition yields {A} (Q : A -> Prop) (m : M A) : Prop :=
  forall s, Q (fst (m s)).

End SceneVocabulary.

(** ** Concrete inputs *)

(** The runs below are on IEEE doubles, with a generator that returns a
    fixed sequence and with stand-ins for the headers that are not among
    the sources.  The stand-ins are there to run the code of [main.cpp];
    they are no model of the absent code: a sphere is hit, at [t = 1], by
    the rays that point downwards; a diffuse surface scatters along the
    normal (after one draw), a metal absorbs, a dielectric lets the ray
    through; the camera looks down the negative [z] axis; [format_color]
    scales each channel of the mean to [0 .. 255]. *)
Module Demo.

Import Binary64.

(** The first draws: a linear congruential sequence. *)
Definition lcg (n : nat) : Z :=
  (Z.of_nat n * 1103515245 + 12345) mod 2147483648.

Definition draws : list Z := Eval vm_compute in (lcg <$> seq 0 512).

Definition libc : LibC := draws_libc 2147483647.

Definition hit_at (object : sphere spec_float) (r : ray spec_float)
    : hit_record spec_float :=
  mk_hit_record (vec3_add (origin r) (direction r)) (vec3_int 0 1 0)
    (sphere_mat object) (d_of_int 1) true.

Definition byte (v : spec_float) : spec_float :=
  d_of_int (Z.max 0 (Z.min 255 (d_to_int v))).

Definition headers : Headers spec_float (libc := libc) := {|
  sphere_hit := fun object r t_min t_max =>
    if (y (direction r) <? d_of_int 0)%D
       && (t_min <? d_of_int 1)%D && (d_of_int 1 <? t_max)%D
    then Some (hit_at object r) else None;
  scatter := fun m r rec g =>
    match m with
    | lambertian albedo =>
        (Some (albedo, mk_ray (p rec) (normal rec)), snd (rand g))
    | metal _ _ => (None, g)
    | dielectric _ =>
        (Some (vec3_int 1 1 1, mk_ray (p rec) (direction r)), g)
    end;
  camera := unit;
  make_camera := fun _ _ _ _ _ _ _ => tt;
  get_ray := fun _ u v g =>
    (mk_ray (vec3_int 0 0 0)
       (mk_vec3 (u - dec 5 1)%D (v - dec 5 1)%D (d_of_int (-1))), g);
  format_color := fun c n =>
    let scale v := (d_of_int 255 * v / d_of_int n)%D in
    mk_vec3 (byte (scale (x c))) (byte (scale (y c))) (byte (scale (z c)))
|}.

(** The process at its start: nothing drawn, nothing printed, no file;
    [can_open] tells whether [image.ppm] can be opened. *)
Definition start (can_open : bool) : process (libc := libc) :=
  mk_process (libc := libc) draws 0 100 "" can_open None.

Definition horizontal_ray : ray spec_float :=
  mk_ray (vec3_int 0 0 0) (vec3_int 1 0 0).

Definition downward_ray : ray spec_float :=
  mk_ray (vec3_int 0 0 0) (vec3_int 0 (-1) 0).

Definition empty_scene : hittable_list spec_float := [].

Definition gray : color spec_float := mk_vec3 (dec 5 1) (dec 5 1) (dec 5 1).

Definition ball (m : material spec_float) : hittable_list spec_float :=
  [mk_sphere (vec3_int 0 0 (-1)) (dec 5 1) m].

End Demo.

(** ** Vocabulary of the further properties *)

(** [exact_sqrt val]: [std::sqrt] is the square root of the reals under the
    reading [val]. *)
Definition exact_sqrt {double : Type} {ops : DoubleOps double}
    (val : double -> R) : Prop :=
  forall v, val (d_sqrt v) = sqrt (val v).

Section FurtherVocabulary.

Context {double : Type} {ops : DoubleOps double} {libc : LibC}.

(** The process [s] once the state of [rand()] has become [g]. *)
Definition with_state (g : rand_state) (s : process) : process :=
  mk_process g (current_progress s) (total_progress s) (cerr s) (writable s)
    (image_ppm s).

(** [m] acts on the process through [rand()] only. *)
Definition only_draws {A} (m : M A) : Prop :=
  forall s, exists g, snd (m s) = with_state g s.

(** The progress lines of [n] rows, when the counter stood at [cur] and the
    total is [tot]. *)
Definition progress_line (cur tot : Z) : string :=
  (carriage_return ++ "Processing row: " ++ string_of_int cur ++ "/"
   ++ string_of_int tot ++ " ")%string.

Definition progress_lines (cur tot n : Z) : string :=
  fold_right append ""%string
    ((fun k => progress_line (cur + k) tot) <$> seqZ 1 n).

(** [s'] is [s] after [n] more rows were reported: the counter is [n]
    higher, the [n] progress lines were added to the error stream, [rand()]
    went on; the total and the file system are as they were. *)
Definition reported (n : Z) (s s' : process) : Prop :=
  exists g,
    s' = mk_process g (current_progress s + n) (total_progress s)
           (cerr s ++ progress_lines (current_progress s) (total_progress s) n)
           (writable s) (image_ppm s).

(** The cell [(j, i)] exists in the buffer. *)
Definition in_matrix (arr : matrix double) (j i : Z) : Prop :=
  0 <= j /\ 0 <= i
  /\ exists row, arr !! Z.to_nat j = Some row
                 /\ (Z.to_nat i < List.length row)%nat.

End FurtherVocabulary.

(** [exact_cast val]: [static_cast<int>] drops the fraction of the real
    under the reading [val]. *)
Definition exact_cast {double : Type} {ops : DoubleOps double}
    (val : double -> R) : Prop :=
  forall v, d_to_int v = Ideal.Rtrunc (val v).

Section RenderVocabulary.

Context {double : Type} {ops : DoubleOps double} {libc : LibC}
        {headers : Headers double}.

(** Modelled from the spec: [color.h], which holds [format_color], is not
    among the sources.  The colour accumulated over the samples is divided
    by the sample count, gamma-corrected (the square root of each channel),
    clamped to [0, 1] (with [clamp] of rtweekend.h) and scaled to [0, 255]
    for storage. *)
Definition format_channel (v : double) (samples_per_pixel : Z) : double :=
  (d_of_int 255
   * clamp (d_sqrt (v / d_of_int samples_per_pixel)) (d_of_int 0) (d_of_int 1))%D.

Definition format_color_spec (pixel_color : color double)
    (samples_per_pixel : Z) : color double :=
  mk_vec3 (format_channel (x pixel_color) samples_per_pixel)
          (format_channel (y pixel_color) samples_per_pixel)
          (format_channel (z pixel_color) samples_per_pixel).

(** One sample of the pixel [(j, i)], in the words of the specification:
    a jittered [(u, v)] within the pixel's footprint, the camera ray
    through it, its colour. *)
Definition sample (image_width image_height max_depth : Z)
    (world : hittable_list double) (cam : camera) (j i : Z)
    : M (color double) :=
  (ru <- random_double ;;
   rv <- random_double ;;
   r <- with_rng (get_ray cam
                    ((d_of_int i + ru) / d_of_int (image_width - 1))%D
                    ((d_of_int j + rv) / d_of_int (image_height - 1))%D) ;;
   ray_color r world max_depth)%M.

(** [c] is the colour of one sample of the pixel [(j, i)], taken from
    some state of the process. *)
Definition is_sample (image_width image_height max_depth : Z)
    (world : hittable_list double) (cam : camera) (j i : Z)
    (c : color double) : Prop :=
  exists s : process,
    c = fst (sample image_width image_height max_depth world cam j i s).

(** [v] is a finished pixel [(j, i)]: [format_color] of the sum, from
    black, of [samples_per_pixel] samples of that pixel. *)
Definition is_pixel (image_width image_height samples_per_pixel max_depth : Z)
    (world : hittable_list double) (cam : camera) (j i : Z)
    (v : color double) : Prop :=
  exists samples : list (color double),
    List.length samples = Z.to_nat samples_per_pixel
    /\ Forall (is_sample image_width image_height max_depth world cam j i)
         samples
    /\ v = format_color (fold_left vec3_add samples (vec3_int 0 0 0))
             samples_per_pixel.

(** The workers [threads], each run to its end before the next one
    starts. *)
Definition run_threads (threads : list (Z * Z))
    (image_width image_height : Z) (output_matrix : matrix double)
    (samples_per_pixel max_depth : Z) (world : hittable_list double)
    (cam : camera) : M (matrix double) :=
  fold_left
    (fun (run : M (matrix double)) (th : Z * Z) =>
       (output_matrix <- run ;;
        process_matrix_rows (fst th) (snd th) image_width image_height
          output_matrix samples_per_pixel max_depth world cam)%M)
    threads (ret output_matrix).

(** When each worker gets to run is the operating system's choice.  A
    schedule here is the order in which the started workers run, each to
    its end: a permutation of the order in which they were started.  These
    are some of the interleavings the program admits (the workers can also
    alternate row by row, or draw by draw). *)
Definition admissible (schedule : list (Z * Z) -> list (Z * Z)) : Prop :=
  forall threads, schedule threads ≡ₚ threads.

(** [multithreaded_raytracing] under the schedule [schedule];
    [multithreaded_raytracing] itself is the case of the start order. *)
Definition multithreaded_raytracing_in
    (schedule : list (Z * Z) -> list (Z * Z))
    (thread_count image_width image_height : Z)
    (output_matrix : matrix double) (samples_per_pixel max_depth : Z)
    (world : hittable_list double) (cam : camera) : M (matrix double) :=
  run_threads (schedule (thread_list thread_count image_height))
    image_width image_height output_matrix samples_per_pixel max_depth
    world cam.

(** [main] under the schedule [schedule]; [main_with] is the case of the
    start order. *)
Definition main_in (schedule : list (Z * Z) -> list (Z * Z))
    (thread_count image_width : Z) (aspect_ratio : double)
    (samples_per_pixel max_depth : Z) : M Z :=
  (let image_height := d_to_int (d_of_int image_width / aspect_ratio)%D in
   world <- random_scene ;;
   let cam := make_camera (vec3_int 13 2 3) (vec3_int 0 0 0) (vec3_int 0 1 0)
                (d_of_int 20) aspect_ratio (dec 1 1) (dec 100 1) in
   set_progress 0 image_height ;;
   let output_matrix := image_matrix image_width image_height in
   output_matrix <-
     multithreaded_raytracing_in schedule thread_count image_width
       image_height output_matrix samples_per_pixel max_depth world cam ;;
   good <- open_outdata ;;
   if negb good then
     print_cerr ("Error: output file could not be opened." ++ newline) ;;
     ret 1
   else
     print_outdata ("P3" ++ newline ++ string_of_int image_width ++ " "
                    ++ string_of_int image_height ++ newline ++ "255"
                    ++ newline) ;;
     for_downM (image_height - 1) 0 (fun j _ =>
       print_cerr (carriage_return ++ "Storing row: " ++ string_of_int j
                   ++ " ") ;;
       for_upM 0 image_width (fun i _ =>
         print_outdata (pixel_line (fetch output_matrix j i))) tt) tt ;;
     print_cerr (newline ++ "Done." ++ newline) ;;
     ret 0)%M.

End RenderVocabulary.

(** Stand-ins for the absent headers over any arithmetic, for runs in the
    reals: nothing is ever hit, every material absorbs, [format_color] is
    the one modelled from the specification. *)
Module Void.

Definition headers {double : Type} {ops : DoubleOps double} {libc : LibC}
    : Headers double := {|
  sphere_hit := fun _ _ _ _ => None;
  scatter := fun _ _ _ g => (None, g);
  camera := unit;
  make_camera := fun _ _ _ _ _ _ _ => tt;
  get_ray := fun _ _ _ g =>
    (mk_ray (vec3_int 0 0 0) (vec3_int 0 0 (-1)), g);
  format_color := format_color_spec
|}.

End Void.



(** ** Properties *)

Section PathTracer.

Context {double : Type} {ops : DoubleOps double} {libc : LibC}
        {headers : Headers double} {W : Type} {hittable_W : hittable double W}.

Implicit Types (r : ray double) (world : W) (depth : Z) (s : process).

(** One activation more than [depth] is always enough. *)
Lemma ray_color_fuel_enough fuel r world depth s :
  (Z.to_nat depth < fuel)%nat ->
  exists c s', ray_color_fuel fuel r world depth s = Some (c, s').
Proof.
  revert r depth s.
  induction fuel as [|fuel IH]; intros r depth s Hfuel; [lia|].
  simpl. destruct (Z.leb_spec depth 0) as [Hle|Hgt]; [eauto|].
  destruct (hit world r MIN_HIT_LIMIT infinity) as [rec|]; [|eauto].
  destruct (with_rng (scatter (mat_ptr rec) r rec) s) as [[[att sc]|] s1];
    [|eauto].
  destruct (IH sc (depth - 1) s1) as (c & s2 & ->); [lia|eauto].
Qed.

(** More fuel does not change a result. *)
Lemma ray_color_fuel_more fuel fuel' r world depth s cs :
  (fuel <= fuel')%nat ->
  ray_color_fuel fuel r world depth s = Some cs ->
  ray_color_fuel fuel' r world depth s = Some cs.
Proof.
  revert fuel' r depth s cs.
  induction fuel as [|fuel IH]; intros fuel' r depth s cs Hle; [discriminate|].
  destruct fuel' as [|fuel']; [lia|]. simpl.
  destruct (depth <=? 0); [auto|].
  destruct (hit world r MIN_HIT_LIMIT infinity) as [rec|]; [|auto].
  destruct (with_rng (scatter (mat_ptr rec) r rec) s) as [[[att sc]|] s1];
    [|auto].
  destruct (ray_color_fuel fuel sc world (depth - 1) s1) as [[c s2]|] eqn:E;
    [|discriminate].
  rewrite (IH fuel' sc (depth - 1) s1 (c, s2)); [auto|lia|exact E].
Qed.

(** The body of [ray_color], as the source has it. *)
Lemma ray_color_unfold r world depth s :
  ray_color r world depth s =
    if depth <=? 0 then (vec3_int 0 0 0, s)
    else
      match hit world r MIN_HIT_LIMIT infinity with
      | Some rec =>
          let (res, s1) := with_rng (scatter (mat_ptr rec) r rec) s in
          match res with
          | Some (attenuation, scattered) =>
              let (c, s2) := ray_color scattered world (depth - 1) s1 in
              (vec3_mul attenuation c, s2)
          | None => (vec3_int 0 0 0, s1)
          end
      | None => (sky r, s)
      end.
Proof.
  unfold ray_color at 1. simpl.
  destruct (Z.leb_spec depth 0) as [Hle|Hgt]; [reflexivity|].
  destruct (hit world r MIN_HIT_LIMIT infinity) as [rec|]; [|reflexivity].
  destruct (with_rng (scatter (mat_ptr rec) r rec) s) as [[[att sc]|] s1];
    [|reflexivity].
  unfold ray_color.
  replace (Z.to_nat depth) with (S (Z.to_nat (depth - 1))) by lia.
  destruct (ray_color_fuel_enough (S (Z.to_nat (depth - 1))) sc world
              (depth - 1) s1) as (c & s2 & ->); [lia|reflexivity].
Qed.

(** C1. When [depth > 0] and the scene reports a hit for [r] between
    [MIN_HIT_LIMIT] (0.001) and [infinity]: if the material of the hit
    scatters, [ray_color] is the component-wise product of the attenuation
    with [ray_color] of the scattered ray at [depth - 1] (run from the
    state the scatter call leaves); if it absorbs, [ray_color] is black. *)
Theorem ray_color_hit r world depth s rec :
  0 < depth ->
  hit world r MIN_HIT_LIMIT infinity = Some rec ->
  (forall attenuation scattered s1,
      with_rng (scatter (mat_ptr rec) r rec) s
        = (Some (attenuation, scattered), s1) ->
      ray_color r world depth s =
        (vec3_mul attenuation (fst (ray_color scattered world (depth - 1) s1)),
         snd (ray_color scattered world (depth - 1) s1)))
  /\ (forall s1,
        with_rng (scatter (mat_ptr rec) r rec) s = (None, s1) ->
        ray_color r world depth s = (vec3_int 0 0 0, s1)).
Proof.
  intros Hdepth Hhit.
  assert (Hgt : (depth <=? 0) = false) by lia.
  split.
  - intros att sc s1 Hsc.
    rewrite ray_color_unfold, Hgt, Hhit, Hsc.
    destruct (ray_color sc world (depth - 1) s1); reflexivity.
  - intros s1 Hsc.
    rewrite ray_color_unfold, Hgt, Hhit, Hsc. reflexivity.
Qed.

(** C2. With [depth <= 0], [ray_color] is black whatever the ray and the
    scene, and the scene is not even asked. *)
Theorem ray_color_depth_exhausted r world depth s :
  depth <= 0 -> ray_color r world depth s = (vec3_int 0 0 0, s).
Proof.
  intros Hdepth. rewrite ray_color_unfold.
  destruct (Z.leb_spec depth 0); [reflexivity|lia].
Qed.

(** C4. [ray_color] returns for every ray, scene and depth: [depth]
    nested recursive calls below the first activation suffice ([depth]
    counted as 0 when negative), any larger budget gives the same result,
    and that result is the value of [ray_color]. *)
Theorem ray_color_terminates r world depth s :
  exists c s',
    ray_color_fuel (S (Z.to_nat depth)) r world depth s = Some (c, s')
    /\ (forall fuel, (Z.to_nat depth < fuel)%nat ->
          ray_color_fuel fuel r world depth s = Some (c, s'))
    /\ ray_color r world depth s = (c, s').
Proof.
  destruct (ray_color_fuel_enough (S (Z.to_nat depth)) r world depth s)
    as (c & s' & E); [lia|].
  exists c, s'. split; [exact E|]. split.
  - intros fuel Hfuel.
    apply (ray_color_fuel_more (S (Z.to_nat depth))); [lia|exact E].
  - unfold ray_color. rewrite E. reflexivity.
Qed.

End PathTracer.

Section Sky.

Context {double : Type} {ops : DoubleOps double} {libc : LibC}
        {headers : Headers double}.

(** A scene with no object reports no hit. *)
Lemma empty_scene_no_hit (r : ray double) (t_min t_max : double) :
  hit ([] : hittable_list double) r t_min t_max = None.
Proof. reflexivity. Qed.

Lemma ray_color_no_hit {W} `{!hittable double W} (r : ray double) (world : W)
    (depth : Z) (s : process) :
  0 < depth -> hit world r MIN_HIT_LIMIT infinity = None ->
  ray_color r world depth s = (sky r, s).
Proof.
  intros Hdepth Hmiss. rewrite ray_color_unfold, Hmiss.
  destruct (Z.leb_spec depth 0); [lia|reflexivity].
Qed.

Section Exact.

Variable val : double -> R.
Hypothesis exact : exact_arith val.

Lemma val_dec (m k : Z) : 0 <= k -> val (dec m k) = (IZR m / IZR (10 ^ k))%R.
Proof.
  intros Hk. unfold dec.
  assert (IZR (10 ^ k) <> 0%R).
  { apply not_0_IZR. apply Z.pow_nonzero; lia. }
  rewrite (val_div val exact).
  - rewrite !(val_of_int val exact). reflexivity.
  - rewrite (val_of_int val exact). assumption.
Qed.

(** The sky colour read in the reals: with [T] the half of the
    vertical component of the unit direction plus one, it is
    [(1 - T/2, 1 - 3T/10, 1)]. *)
Lemma sky_exact (r : ray double) :
  let T := ((val (y (unit_vector (direction r))) + 1) / 2)%R in
  val (x (sky r)) = (1 - T / 2)%R
  /\ val (y (sky r)) = (1 - 3 * T / 10)%R
  /\ val (z (sky r)) = 1%R.
Proof.
  unfold sky. cbn [x y z vec3_add vec3_scale].
  rewrite !(val_add val exact), !(val_mul val exact), !(val_sub val exact),
    !(val_mul val exact), !(val_add val exact), !val_dec by lia.
  change (10 ^ 1) with 10. cbv zeta. repeat split; lra.
Qed.

Lemma sky_not_black (r : ray double) : sky r <> vec3_int 0 0 0.
Proof.
  intros E. destruct (sky_exact r) as (_ & _ & Hz).
  rewrite E in Hz. cbn [z vec3_int] in Hz.
  rewrite (val_of_int val exact) in Hz. lra.
Qed.

End Exact.


End Sky.

Section Scheduler.

(** The band of the [k]-th thread when each gets [q] rows. *)
Local Definition band (q k : Z) : Z * Z := (k * q, k * q + q - 1).

Lemma spawn_loop (q : Z) (n : nat) (tc cur_row : Z) (threads : list (Z * Z)) :
  iter_down n tc
    (fun _ (st : Z * list (Z * Z)) =>
       let (cur_row, threads) := st in
       (cur_row + q, threads ++ [(cur_row, cur_row + q - 1)]))
    (cur_row, threads)
  = (cur_row + Z.of_nat n * q,
     threads ++ ((fun k => (cur_row + k * q, cur_row + k * q + q - 1))
                   <$> seqZ 0 (Z.of_nat n))).
Proof.
  revert tc cur_row threads.
  induction n as [|n IH]; intros tc cur_row threads.
  - simpl. rewrite app_nil_r. f_equal. cbn. lia.
  - cbn [iter_down]. rewrite IH.
    rewrite (seqZ_cons 0 (Z.of_nat (S n))) by lia.
    rewrite fmap_cons, <- app_assoc. cbn [app].
    f_equal; [lia|]. f_equal. f_equal; [f_equal; lia|].
    replace (Z.pred (Z.of_nat (S n))) with (Z.of_nat n) by lia.
    rewrite <- (fmap_add_seqZ 1 0), <- list_fmap_compose.
    apply list_fmap_ext. intros _ k _. cbn. f_equal; lia.
Qed.

Lemma thread_list_bands (N H : Z) :
  0 <= N -> thread_list N H = band (H ÷ N) <$> seqZ 0 N.
Proof.
  intros HN. unfold thread_list, for_down. rewrite spawn_loop. cbn [snd app].
  replace (Z.of_nat (Z.to_nat (N - 1 - 0 + 1))) with N by lia.
  apply list_fmap_ext. intros _ k _. unfold band. f_equal; lia.
Qed.

Lemma band_rows_band (q k : Z) : band_rows (band q k) = seqZ (k * q) q.
Proof. unfold band_rows, band. cbn [fst snd]. f_equal. lia. Qed.

Lemma concat_bands (q : Z) (n : nat) :
  0 <= q ->
  concat (band_rows <$> (band q <$> seqZ 0 (Z.of_nat n)))
  = seqZ 0 (Z.of_nat n * q).
Proof.
  intros Hq. induction n as [|n IH]; [reflexivity|].
  rewrite seqZ_S, !fmap_app, concat_app, IH. cbn [fmap list_fmap concat].
  rewrite app_nil_r, band_rows_band.
  replace (Z.of_nat (S n) * q) with (Z.of_nat n * q + q) by lia.
  rewrite seqZ_app by lia. f_equal.
Qed.

Lemma workers_of_row_bands (q j : Z) (n : nat) :
  0 <= q ->
  workers_of_row (band q <$> seqZ 0 (Z.of_nat n)) j
  = if decide (0 <= j < Z.of_nat n * q) then [band q (j / q)] else [].
Proof.
  intros Hq. unfold workers_of_row. induction n as [|n IH].
  - cbn. case_decide; [lia|reflexivity].
  - rewrite seqZ_S, fmap_app, filter_app, IH. cbn [fmap list_fmap].
    rewrite Z.add_0_l.
    destruct (decide (fst (band q (Z.of_nat n)) <= j
                      <= snd (band q (Z.of_nat n)))) as [Hin|Hout].
    + rewrite filter_cons_True, filter_nil by exact Hin.
      unfold band in Hin. cbn [fst snd] in Hin.
      assert (j / q = Z.of_nat n) as ->
        by (symmetry; apply Z.div_unique with (j - Z.of_nat n * q); lia).
      repeat case_decide; try lia. reflexivity.
    + rewrite filter_cons_False, filter_nil, app_nil_r by exact Hout.
      unfold band in Hout. cbn [fst snd] in Hout.
      repeat case_decide; try reflexivity; nia.
Qed.

(** The threads started.  For [N > 0] workers and a height [H >= 0], with
    [q] the integer quotient of [H] by [N]: [N] threads are started, the
    [k]-th on the
    rows [k*q .. k*q + q - 1]; each band has exactly [q] rows; the bands
    laid end to end are the rows [0 .. N*q - 1], each once and in order
    (so they are contiguous and pairwise disjoint); every row below [N*q]
    has exactly one worker, hence every row of the image when [N] divides
    [H]; the [H mod N] rows from [N*q] to [H - 1] have none. *)
Lemma thread_list_partition (N H : Z) :
  0 < N -> 0 <= H ->
  let q := H / N in
  let threads := thread_list N H in
  List.length threads = Z.to_nat N
  /\ (forall k, 0 <= k < N ->
        threads !! Z.to_nat k = Some (k * q, k * q + q - 1))
  /\ Forall (fun th => List.length (band_rows th) = Z.to_nat q) threads
  /\ concat (band_rows <$> threads) = seqZ 0 (N * q)
  /\ (forall j, 0 <= j < N * q -> List.length (workers_of_row threads j) = 1%nat)
  /\ (H mod N = 0 ->
      forall j, 0 <= j < H -> List.length (workers_of_row threads j) = 1%nat)
  /\ (forall j, N * q <= j < H -> workers_of_row threads j = [])
  /\ H - N * q = H mod N.
Proof.
  intros HN HH q threads.
  assert (Hq : 0 <= q) by (apply Z.div_pos; lia).
  assert (Hthreads : threads = band q <$> seqZ 0 N).
  { unfold threads. rewrite thread_list_bands by lia.
    rewrite Z.quot_div_nonneg by lia. reflexivity. }
  assert (Hrows : forall j,
             workers_of_row threads j
             = if decide (0 <= j < N * q) then [band q (j / q)] else []).
  { intros j. rewrite Hthreads. rewrite <- (Z2Nat.id N) by lia.
    apply workers_of_row_bands. exact Hq. }
  assert (Hmod : H - N * q = H mod N).
  { unfold q. rewrite (Z.mod_eq H N) by lia. reflexivity. }
  repeat split.
  - rewrite Hthreads, length_fmap, length_seqZ. reflexivity.
  - intros k Hk. rewrite Hthreads, list_lookup_fmap, lookup_seqZ_lt by lia.
    cbn. unfold band. do 2 f_equal; lia.
  - rewrite Hthreads. apply Forall_fmap, Forall_seqZ. intros k _. cbn.
    rewrite band_rows_band, length_seqZ. reflexivity.
  - rewrite Hthreads. rewrite <- (Z2Nat.id N) at 1 2 by lia.
    apply concat_bands. exact Hq.
  - intros j Hj. rewrite Hrows. case_decide; [reflexivity|lia].
  - intros Hdiv j Hj. rewrite Hrows. case_decide; [reflexivity|lia].
  - intros j Hj. rewrite Hrows. case_decide; [lia|reflexivity].
  - exact Hmod.
Qed.

End Scheduler.

(** *** Texts and lines *)

Section Texts.

Local Open Scope string_scope.

Lemma append_nil_r (a : string) : a ++ "" = a.
Proof. induction a as [|c a IH]; [reflexivity|]. cbn. rewrite IH. reflexivity. Qed.

Lemma append_assoc (a b c : string) : (a ++ b) ++ c = a ++ (b ++ c).
Proof. induction a as [|ch a IH]; [reflexivity|]. cbn. rewrite IH. reflexivity. Qed.

Lemma no_newline_append (a b : string) :
  no_newline a -> no_newline b -> no_newline (a ++ b).
Proof.
  induction a as [|c a IH]; [auto|]. cbn. intros [Hc Ha] Hb. auto.
Qed.

Lemma no_newline_uint (d : Decimal.uint) :
  no_newline (NilEmpty.string_of_uint d).
Proof. induction d; cbn; (split; [discriminate|assumption]) || exact I. Qed.

Lemma no_newline_string_of_int (n : Z) : no_newline (string_of_int n).
Proof.
  unfold string_of_int, NilZero.string_of_int, NilZero.string_of_uint.
  assert (no_newline "0") by (cbn; split; [discriminate|exact I]).
  destruct (Z.to_int n) as [d|d].
  - destruct d; try assumption; apply (no_newline_uint (_ _)).
  - cbn. split; [discriminate|].
    destruct d; try assumption; apply (no_newline_uint (_ _)).
Qed.

Lemma lines_line (l rest : string) :
  no_newline l -> lines (l ++ newline ++ rest) = l :: lines rest.
Proof.
  induction l as [|c l IH]; cbn; [reflexivity|]. intros [Hc Hl].
  destruct (Ascii.eqb_spec c "010"); [contradiction|].
  change (String "010" rest) with (newline ++ rest).
  rewrite (IH Hl). reflexivity.
Qed.

Lemma lines_unlines (ls : list string) :
  Forall no_newline ls -> lines (unlines ls) = ls.
Proof.
  induction 1 as [|l ls Hl _ IH]; [reflexivity|].
  cbn [unlines fold_right]. rewrite lines_line by exact Hl.
  f_equal. exact IH.
Qed.

Lemma unlines_app (ls1 ls2 : list string) :
  unlines (ls1 ++ ls2) = unlines ls1 ++ unlines ls2.
Proof.
  induction ls1 as [|l ls1 IH]; [reflexivity|].
  cbn [app unlines fold_right]. fold (unlines (ls1 ++ ls2)) (unlines ls1).
  rewrite IH, !append_assoc. reflexivity.
Qed.

End Texts.

(** *** Loops *)

Section Loops.

Context {A : Type} (I : A -> Prop) (body : Z -> A -> A).

Lemma iter_up_inv (n : nat) (i : Z) (a : A) :
  (forall k a, i <= k < i + Z.of_nat n -> I a -> I (body k a)) ->
  I a -> I (iter_up n i body a).
Proof.
  revert i a. induction n as [|n IH]; intros i a Hbody Ha; [exact Ha|].
  cbn [iter_up]. apply IH.
  - intros k a' Hk. apply Hbody. lia.
  - apply Hbody; [lia|exact Ha].
Qed.

Lemma for_up_inv (lo hi : Z) (a : A) :
  (forall k a, lo <= k < hi -> I a -> I (body k a)) ->
  I a -> I (for_up lo hi body a).
Proof.
  intros Hbody. apply iter_up_inv. intros k a' Hk. apply Hbody. lia.
Qed.

Lemma iter_down_inv (n : nat) (j : Z) (a : A) :
  (forall k a, j - Z.of_nat n < k <= j -> I a -> I (body k a)) ->
  I a -> I (iter_down n j body a).
Proof.
  revert j a. induction n as [|n IH]; intros j a Hbody Ha; [exact Ha|].
  cbn [iter_down]. apply IH.
  - intros k a' Hk. apply Hbody. lia.
  - apply Hbody; [lia|exact Ha].
Qed.

End Loops.

(** *** The buffer *)

Section Buffer.

Context {double : Type} {ops : DoubleOps double}.

Implicit Types (arr : matrix double) (v : color double).

Lemma fetch_store_other_row arr j i v j' i' :
  j <> j' -> fetch (store arr j i v) j' i' = fetch arr j' i'.
Proof.
  intros Hne. unfold fetch, store.
  destruct ((0 <=? j) && (0 <=? i)) eqn:Hin; [|reflexivity].
  destruct ((0 <=? j') && (0 <=? i')) eqn:Hin'; [|reflexivity].
  rewrite list_lookup_alter_ne by lia. reflexivity.
Qed.

(** A cell read after a store holds the stored value or what it held. *)
Lemma fetch_store_cases arr j i v j' i' :
  fetch (store arr j i v) j' i' = v
  \/ fetch (store arr j i v) j' i' = fetch arr j' i'.
Proof.
  unfold fetch, store.
  destruct ((0 <=? j) && (0 <=? i)) eqn:Hin; [|right; reflexivity].
  destruct ((0 <=? j') && (0 <=? i')) eqn:Hin'; [|right; reflexivity].
  destruct (decide (Z.to_nat j = Z.to_nat j')) as [Hj|Hj];
    [|right; rewrite list_lookup_alter_ne by exact Hj; reflexivity].
  rewrite Hj, list_lookup_alter_eq. destruct (arr !! Z.to_nat j') as [row|];
    [|right; reflexivity].
  cbn. destruct (decide (Z.to_nat i = Z.to_nat i')) as [Hi|Hi].
  - rewrite Hi. destruct (decide (Z.to_nat i' < List.length row)%nat).
    + left. rewrite list_lookup_insert_eq by assumption. reflexivity.
    + right. rewrite list_insert_ge by lia. reflexivity.
  - right. rewrite list_lookup_insert_ne by exact Hi. reflexivity.
Qed.

(** Storing what a cell already holds changes nothing. *)
Lemma store_same arr j i v row :
  arr !! Z.to_nat j = Some row -> row !! Z.to_nat i = Some v ->
  store arr j i v = arr.
Proof.
  intros Hrow Hcell. unfold store.
  destruct ((0 <=? j) && (0 <=? i)); [|reflexivity].
  apply list_eq. intros k. destruct (decide (k = Z.to_nat j)) as [->|Hk].
  - rewrite list_lookup_alter_eq, Hrow. cbn.
    rewrite list_insert_id by exact Hcell. reflexivity.
  - rewrite list_lookup_alter_ne by congruence. reflexivity.
Qed.

(** The row loop of [image_matrix] leaves a row of zero colours as it
    is. *)
Lemma image_matrix_row arr (j width : Z) :
  0 <= j ->
  arr !! Z.to_nat j = Some (replicate (Z.to_nat width) (vec3_int 0 0 0)) ->
  for_up 0 width (fun i arr => store arr j i vec3_zero) arr = arr.
Proof.
  intros Hj Hrow.
  apply (for_up_inv (fun a => a = arr)); [|reflexivity].
  intros i a Hi ->. apply store_same with (1 := Hrow).
  apply lookup_replicate_2. lia.
Qed.

Lemma image_matrix_rows (width : Z) (n m : nat) :
  let row := replicate (Z.to_nat width) (vec3_int 0 0 0 : color double) in
  iter_down n (Z.of_nat n - 1)
    (fun j arr =>
       let arr := <[Z.to_nat j := row]> arr in
       for_up 0 width (fun i arr => store arr j i vec3_zero) arr)
    (replicate n [] ++ replicate m row)
  = replicate (n + m) row.
Proof.
  intros row. revert m. induction n as [|n IH]; intros m; [reflexivity|].
  cbn [iter_down]. cbv zeta.
  replace (Z.to_nat (Z.of_nat (S n) - 1)) with n by lia.
  assert (Hset : <[n := row]> (replicate (S n) [] ++ replicate m row)
                 = replicate n [] ++ replicate (S m) row).
  { rewrite replicate_S_end, <- app_assoc. cbn [app].
    rewrite insert_app_r_alt by (rewrite length_replicate; lia).
    rewrite length_replicate, Nat.sub_diag. reflexivity. }
  rewrite Hset, image_matrix_row.
  - replace (Z.of_nat (S n) - 1 - 1) with (Z.of_nat n - 1) by lia.
    rewrite IH. f_equal. lia.
  - lia.
  - replace (Z.to_nat (Z.of_nat (S n) - 1)) with n by lia.
    rewrite lookup_app_r by (rewrite length_replicate; lia).
    rewrite length_replicate, Nat.sub_diag. reflexivity.
Qed.

(** [image_matrix] returns [height] rows of [width] zero colours. *)
Lemma image_matrix_zero (width height : Z) :
  image_matrix width height
  = replicate (Z.to_nat height) (replicate (Z.to_nat width) vec3_zero).
Proof.
  unfold image_matrix, for_down.
  replace (Z.to_nat (height - 1 - 0 + 1)) with (Z.to_nat height) by lia.
  destruct (Z.le_gt_cases height 0) as [Hle|Hgt].
  - replace (Z.to_nat height) with O by lia. reflexivity.
  - replace (height - 1) with (Z.of_nat (Z.to_nat height) - 1) by lia.
    rewrite <- (app_nil_r (replicate (Z.to_nat height) [])).
    change [] with (replicate 0 (replicate (Z.to_nat width)
                                   (vec3_int 0 0 0 : color double))) at 2.
    rewrite image_matrix_rows. f_equal. lia.
Qed.

Lemma fetch_replicate (width height j i : Z) :
  fetch (replicate (Z.to_nat height) (replicate (Z.to_nat width) vec3_zero)) j i
  = vec3_zero.
Proof.
  unfold fetch. destruct ((0 <=? j) && (0 <=? i)); [|reflexivity].
  destruct (replicate _ _ !! Z.to_nat j) as [row|] eqn:Hrow; [|reflexivity].
  apply lookup_replicate in Hrow as [-> _].
  destruct (replicate _ _ !! Z.to_nat i) as [c|] eqn:Hc; [|reflexivity].
  apply lookup_replicate in Hc as [-> _]. reflexivity.
Qed.

End Buffer.

(** *** What the render leaves alone *)

Section Keeps.

Context {double : Type} {ops : DoubleOps double} {libc : LibC}
        {headers : Headers double}.

Variable s0 : process.

Lemma keeps_ret {A} (P : A -> Prop) (a : A) : P a -> keeps s0 P (ret a).
Proof. intros Ha s Hs. split; assumption. Qed.

Lemma keeps_bind {A B} (P : A -> Prop) (Q : B -> Prop) (m : M A) (k : A -> M B) :
  keeps s0 P m -> (forall a, P a -> keeps s0 Q (k a)) -> keeps s0 Q (bind m k).
Proof.
  intros Hm Hk s Hs. unfold bind.
  destruct (Hm s Hs) as [Ha Hs']. destruct (m s) as [a s'].
  apply Hk; assumption.
Qed.

Lemma keeps_any {A} (P : A -> Prop) (m : M A) :
  keeps s0 P m -> keeps s0 (fun _ => True) m.
Proof. intros Hm s Hs. split; [exact I|apply Hm, Hs]. Qed.

Lemma keeps_with_rng {A} (f : rand_state -> A * rand_state) :
  keeps s0 (fun _ => True) (with_rng f).
Proof.
  intros s Hs. unfold with_rng. destruct (f (rng s)) as [a g].
  split; [exact I|exact Hs].
Qed.

Lemma keeps_print_cerr (text : string) : keeps s0 (fun _ => True) (print_cerr text).
Proof. intros s Hs. split; [exact I|exact Hs]. Qed.

Lemma keeps_set_progress (cur tot : Z) :
  keeps s0 (fun _ => True) (set_progress cur tot).
Proof. intros s Hs. split; [exact I|exact Hs]. Qed.

Lemma keeps_update_progress : keeps s0 (fun _ => True) update_progress.
Proof. intros s Hs. split; [exact I|exact Hs]. Qed.

Lemma keeps_for_upM {A} (P : A -> Prop) (lo hi : Z) (body : Z -> A -> M A) (a : A) :
  (forall k a, lo <= k < hi -> P a -> keeps s0 P (body k a)) ->
  P a -> keeps s0 P (for_upM lo hi body a).
Proof.
  intros Hbody Ha s Hs. unfold for_upM.
  apply (for_up_inv (fun st => P (fst st) /\ files_as s0 (snd st))).
  - intros k [a' s'] Hk [Ha' Hs']. apply Hbody; assumption.
  - split; assumption.
Qed.

Lemma keeps_random_double : keeps s0 (fun _ => True) random_double.
Proof. apply keeps_with_rng. Qed.

Lemma keeps_random_double_in (min max : double) :
  keeps s0 (fun _ => True) (random_double_in min max).
Proof.
  eapply keeps_bind; [apply keeps_random_double|].
  intros r _. apply keeps_ret. exact I.
Qed.

Lemma keeps_color_random : keeps s0 (fun _ => True) color_random.
Proof.
  repeat (eapply keeps_bind; [apply keeps_random_double|intros ? _]).
  apply keeps_ret. exact I.
Qed.

Lemma keeps_color_random_in (min max : double) :
  keeps s0 (fun _ => True) (color_random_in min max).
Proof.
  repeat (eapply keeps_bind; [apply keeps_random_double_in|intros ? _]).
  apply keeps_ret. exact I.
Qed.

Lemma keeps_random_scene : keeps s0 (fun _ => True) random_scene.
Proof.
  unfold random_scene.
  apply (keeps_bind (fun _ => True)); [|intros ? _; apply keeps_ret; exact I].
  apply (keeps_for_upM (fun _ => True)); [|exact I]. intros a world _ _.
  apply (keeps_for_upM (fun _ => True)); [|exact I]. intros b world' _ _.
  repeat (eapply keeps_bind; [apply keeps_random_double|intros ? _]).
  repeat match goal with |- keeps _ _ (if ?c then _ else _) => destruct c end.
  - repeat (eapply keeps_bind; [apply keeps_color_random|intros ? _]).
    apply keeps_ret. exact I.
  - eapply keeps_bind; [apply keeps_color_random_in|intros ? _].
    eapply keeps_bind; [apply keeps_random_double_in|intros ? _].
    apply keeps_ret. exact I.
  - apply keeps_ret. exact I.
  - apply keeps_ret. exact I.
Qed.

Lemma ray_color_fuel_files {W} `{!hittable double W} (fuel : nat)
    (r : ray double) (world : W) (depth : Z) (s : process) cs :
  ray_color_fuel fuel r world depth s = Some cs ->
  files_as s0 s -> files_as s0 (snd cs).
Proof.
  revert r depth s cs. induction fuel as [|fuel IH]; intros r depth s cs;
    [discriminate|].
  cbn [ray_color_fuel]. destruct (depth <=? 0).
  { intros [= <-]. auto. }
  destruct (hit world r MIN_HIT_LIMIT infinity) as [rec|].
  2: { intros [= <-]. auto. }
  pose proof (keeps_with_rng (scatter (mat_ptr rec) r rec) s) as Hsc.
  destruct (with_rng (scatter (mat_ptr rec) r rec) s) as [[[att sc]|] s1].
  - destruct (ray_color_fuel fuel sc world (depth - 1) s1) as [[c s2]|] eqn:E;
      [|discriminate].
    intros [= <-] Hs. apply (IH _ _ _ _ E). apply Hsc, Hs.
  - intros [= <-] Hs. apply Hsc, Hs.
Qed.

Lemma keeps_ray_color {W} `{!hittable double W} (r : ray double) (world : W)
    (depth : Z) :
  keeps s0 (fun _ => True) (ray_color r world depth).
Proof.
  intros s Hs. split; [exact I|]. unfold ray_color.
  destruct (ray_color_fuel _ r world depth s) as [cs|] eqn:E; [|exact Hs].
  apply (ray_color_fuel_files _ _ _ _ _ _ E Hs).
Qed.

End Keeps.

(** *** The workers *)

Section Workers.

Context {double : Type} {ops : DoubleOps double} {libc : LibC}
        {headers : Headers double}.

Variable s0 : process.
Variable P : matrix double -> Prop.
Variables (image_width image_height samples_per_pixel max_depth : Z).
Variables (world : hittable_list double) (cam : camera).

(** A property of the buffer that every store of a worker on the rows
    [start_row .. end_row] keeps holds when the worker is done. *)
Lemma process_matrix_rows_keeps (start_row end_row : Z) (arr : matrix double) :
  (forall arr j i c, start_row <= j <= end_row -> P arr ->
      P (store arr j i (format_color c samples_per_pixel))) ->
  P arr ->
  keeps s0 P (process_matrix_rows start_row end_row image_width image_height
                arr samples_per_pixel max_depth world cam).
Proof.
  intros Hstore Harr. unfold process_matrix_rows.
  apply keeps_for_upM; [|exact Harr]. intros j arr1 Hj Harr1.
  apply (keeps_bind s0 (fun _ => True)); [apply keeps_update_progress|].
  intros _ _. apply keeps_for_upM; [|exact Harr1]. intros i arr2 Hi Harr2.
  apply (keeps_bind s0 (fun _ => True)).
  - apply (keeps_for_upM s0 (fun _ => True)); [|exact I].
    intros k pixel_color _ _.
    apply (keeps_bind s0 (fun _ => True)); [apply keeps_random_double|].
    intros ru _.
    apply (keeps_bind s0 (fun _ => True)); [apply keeps_random_double|].
    intros rv _.
    apply (keeps_bind s0 (fun _ => True)); [apply keeps_with_rng|].
    intros r _.
    apply (keeps_bind s0 (fun _ => True)); [apply keeps_ray_color|].
    intros c _. apply keeps_ret. exact I.
  - intros pixel_color _. apply keeps_ret. apply Hstore; [lia|exact Harr2].
Qed.

Lemma run_threads_keeps (threads : list (Z * Z)) (run : M (matrix double)) :
  (forall th arr j i c, th ∈ threads -> fst th <= j <= snd th -> P arr ->
      P (store arr j i (format_color c samples_per_pixel))) ->
  keeps s0 P run ->
  keeps s0 P
    (fold_left
       (fun (run : M (matrix double)) (th : Z * Z) =>
          bind run (fun output_matrix =>
            process_matrix_rows (fst th) (snd th) image_width image_height
              output_matrix samples_per_pixel max_depth world cam))
       threads run).
Proof.
  revert run. induction threads as [|th threads IH]; intros run Hstore Hrun;
    [exact Hrun|].
  cbn [fold_left]. apply IH.
  - intros th' arr j i c Hin. apply Hstore. right. exact Hin.
  - apply (keeps_bind s0 P); [exact Hrun|]. intros arr Harr.
    apply process_matrix_rows_keeps; [|exact Harr].
    intros arr' j i c. apply Hstore. left.
Qed.

Lemma multithreaded_raytracing_keeps (thread_count : Z) (arr : matrix double) :
  (forall th arr j i c, th ∈ thread_list thread_count image_height ->
      fst th <= j <= snd th -> P arr ->
      P (store arr j i (format_color c samples_per_pixel))) ->
  P arr ->
  keeps s0 P (multithreaded_raytracing thread_count image_width image_height
                arr samples_per_pixel max_depth world cam).
Proof.
  intros Hstore Harr. unfold multithreaded_raytracing.
  apply run_threads_keeps; [exact Hstore|]. apply keeps_ret. exact Harr.
Qed.

End Workers.

Section Render.

Context {double : Type} {ops : DoubleOps double} {libc : LibC}
        {headers : Headers double}.

Lemma render_keeps (s0 : process) (P : matrix double -> Prop)
    (thread_count image_width : Z) (aspect_ratio : double)
    (samples_per_pixel max_depth : Z) :
  let image_height := height_of image_width aspect_ratio in
  (forall th arr j i c, th ∈ thread_list thread_count image_height ->
      fst th <= j <= snd th -> P arr ->
      P (store arr j i (format_color c samples_per_pixel))) ->
  P (image_matrix image_width image_height) ->
  keeps s0 P (render thread_count image_width aspect_ratio
                samples_per_pixel max_depth).
Proof.
  intros image_height Hstore Hinit. unfold render.
  apply (keeps_bind s0 (fun _ => True)); [apply keeps_random_scene|].
  intros world _.
  apply (keeps_bind s0 (fun _ => True)); [apply keeps_set_progress|].
  intros _ _. apply multithreaded_raytracing_keeps; assumption.
Qed.

End Render.

(** *** The image writer *)

Section Writer.

Context {double : Type} {ops : DoubleOps double} {libc : LibC}
        {headers : Headers double}.

Local Open Scope string_scope.

Lemma appended_appended (e1 o1 e2 o2 : string) (s : process) :
  appended e2 o2 (appended e1 o1 s) = appended (e1 ++ e2) (o1 ++ o2) s.
Proof.
  unfold appended. cbn. rewrite append_assoc.
  destruct (image_ppm s); [rewrite append_assoc|]; reflexivity.
Qed.

Lemma print_cerr_appended (text : string) (s : process) :
  print_cerr text s = (tt, appended text "" s).
Proof.
  unfold print_cerr, appended.
  destruct (image_ppm s); [rewrite append_nil_r|]; reflexivity.
Qed.

Lemma print_outdata_appended (text : string) (s : process) :
  print_outdata text s = (tt, appended "" text s).
Proof. unfold print_outdata, appended. rewrite append_nil_r. reflexivity. Qed.

Lemma pixel_line_text (c : color double) : pixel_line c = pixel_text c ++ newline.
Proof. unfold pixel_line, pixel_text. rewrite !append_assoc. reflexivity. Qed.

Lemma no_newline_pixel_text (c : color double) : no_newline (pixel_text c).
Proof.
  unfold pixel_text.
  repeat (apply no_newline_append;
          [first [apply no_newline_string_of_int
                 |cbn; split; [discriminate|exact I]]|]).
  apply no_newline_string_of_int.
Qed.

Variable arr : matrix double.

(** The inner loop of the dump writes the pixel lines of row [j]. *)
Lemma dump_row (j : Z) (n : nat) (i : Z) (s : process) :
  iter_up n i
    (fun i (st : unit * process) =>
       print_outdata (pixel_line (fetch arr j i)) (snd st)) (tt, s)
  = (tt, appended ""
           (unlines (pixel_text <$> ((fun i => fetch arr j i)
                                       <$> seqZ i (Z.of_nat n)))) s).
Proof.
  revert i s. induction n as [|n IH]; intros i s.
  - cbn. unfold appended. rewrite append_nil_r.
    destruct s as [g c t e w [f|]]; cbn; [rewrite append_nil_r|]; reflexivity.
  - cbn [iter_up]. rewrite print_outdata_appended. cbn [snd].
    rewrite IH, appended_appended.
    rewrite (seqZ_cons i (Z.of_nat (S n))) by lia.
    replace (Z.pred (Z.of_nat (S n))) with (Z.of_nat n) by lia.
    rewrite !fmap_cons. cbn [unlines fold_right].
    rewrite pixel_line_text, append_assoc. reflexivity.
Qed.

Lemma dump_one_row (width j : Z) (s : process) :
  bind (print_cerr (carriage_return ++ "Storing row: "
                    ++ string_of_int j ++ " "))
    (fun _ => for_upM 0 width
                (fun i _ => print_outdata (pixel_line (fetch arr j i))) tt) s
  = (tt, appended (carriage_return ++ "Storing row: " ++ string_of_int j ++ " ")
           (unlines (pixel_text <$> ((fun i => fetch arr j i)
                                       <$> seqZ 0 width))) s).
Proof.
  unfold bind. rewrite print_cerr_appended. unfold for_upM, for_up.
  rewrite dump_row, appended_appended, append_nil_r. cbn [append].
  do 4 f_equal. destruct (Z.le_gt_cases width 0).
  - rewrite !seqZ_nil by lia. reflexivity.
  - repeat f_equal. lia.
Qed.

(** The outer loop writes the rows from the last one down to row 0. *)
Lemma dump_rows (width : Z) (n : nat) (s : process) :
  exists err,
    iter_down n (Z.of_nat n - 1)
      (fun j (st : unit * process) =>
         bind (print_cerr (carriage_return ++ "Storing row: "
                           ++ string_of_int j ++ " "))
           (fun _ => for_upM 0 width
                       (fun i _ => print_outdata (pixel_line (fetch arr j i)))
                       tt) (snd st)) (tt, s)
    = (tt, appended err
             (unlines (pixel_text <$> pixels_top_down width (Z.of_nat n) arr))
             s).
Proof.
  revert s. induction n as [|n IH]; intros s.
  - exists "". cbn. unfold appended. rewrite append_nil_r.
    destruct s as [g c t e w [f|]]; cbn; [rewrite append_nil_r|]; reflexivity.
  - cbn [iter_down snd]. rewrite dump_one_row.
    replace (Z.of_nat (S n) - 1 - 1) with (Z.of_nat n - 1) by lia.
    edestruct IH as [err E]. rewrite E, appended_appended.
    eexists. do 2 f_equal.
    unfold pixels_top_down. rewrite seqZ_S, reverse_snoc, fmap_cons.
    cbn [concat]. rewrite fmap_app, unlines_app.
    do 5 f_equal. lia.
Qed.

End Writer.

(** *** main *)

Section Main.

Context {double : Type} {ops : DoubleOps double} {libc : LibC}
        {headers : Headers double}.

Local Open Scope string_scope.

Variables (thread_count image_width : Z) (aspect_ratio : double).
Variables (samples_per_pixel max_depth : Z).

Lemma render_files (s : process) :
  files_as s (snd (render thread_count image_width aspect_ratio
                     samples_per_pixel max_depth s)).
Proof.
  apply (render_keeps s (fun _ => True)); [intros; exact I|exact I|].
  split; reflexivity.
Qed.

Lemma pixels_top_down_to_nat (width height : Z) (arr : matrix double) :
  pixels_top_down width height arr
  = pixels_top_down width (Z.of_nat (Z.to_nat height)) arr.
Proof.
  unfold pixels_top_down. destruct (Z.le_gt_cases height 0).
  - rewrite (seqZ_nil 0 height) by lia.
    replace (Z.to_nat height) with O by lia. reflexivity.
  - replace (Z.of_nat (Z.to_nat height)) with height by lia. reflexivity.
Qed.

(** What [main] does once the render is over. *)
Lemma main_with_outcome (s : process) :
  let image_height := height_of image_width aspect_ratio in
  let rendered := render thread_count image_width aspect_ratio
                    samples_per_pixel max_depth s in
  let s1 := snd rendered in
  if writable s
  then exists err,
      main_with thread_count image_width aspect_ratio samples_per_pixel
        max_depth s
      = (0, appended err
              (unlines (ppm_lines image_width image_height (fst rendered)))
              (mk_process (rng s1) (current_progress s1) (total_progress s1)
                 (cerr s1) true (Some "")))
  else main_with thread_count image_width aspect_ratio samples_per_pixel
         max_depth s
       = (1, appended ("Error: output file could not be opened." ++ newline)
               "" s1).
Proof.
  intros image_height rendered s1.
  destruct (render_files s) as [Hw Hf]. revert Hw Hf.
  subst s1 rendered image_height.
  unfold main_with, render, bind. fold (height_of image_width aspect_ratio).
  destruct (random_scene s) as [world sa].
  destruct (set_progress 0 _ sa) as [[] sb].
  destruct (multithreaded_raytracing _ _ _ _ _ _ _ _ sb) as [arr s3].
  cbn [fst snd]. intros Hw Hf. unfold open_outdata. rewrite Hw.
  destruct (writable s); cbn [negb].
  - rewrite print_outdata_appended.
    unfold for_downM, for_down.
    set (image_height := height_of image_width aspect_ratio).
    unfold ppm_lines.
    rewrite (pixels_top_down_to_nat image_width image_height).
    replace (Z.to_nat (image_height - 1 - 0 + 1)) with (Z.to_nat image_height)
      by lia.
    assert (Hloop : forall j, (0 < image_height -> j = Z.of_nat (Z.to_nat image_height) - 1) ->
              exists err, iter_down (Z.to_nat image_height) j
                (fun j (st : unit * process) =>
                   bind (print_cerr (carriage_return ++ "Storing row: "
                                     ++ string_of_int j ++ " "))
                     (fun _ => for_upM 0 image_width
                        (fun i _ => print_outdata (pixel_line (fetch arr j i)))
                        tt) (snd st))
                (tt, appended "" ("P3" ++ newline ++ string_of_int image_width
                       ++ " " ++ string_of_int image_height ++ newline
                       ++ "255" ++ newline)
                       (mk_process (rng s3) (current_progress s3)
                          (total_progress s3) (cerr s3) true (Some "")))
                = (tt, appended err
                         (unlines
                            ("P3"
                             :: (string_of_int image_width ++ " "
                                 ++ string_of_int image_height)
                             :: "255"
                             :: (pixel_text <$>
                                   pixels_top_down image_width
                                     (Z.of_nat (Z.to_nat image_height)) arr)))
                         (mk_process (rng s3) (current_progress s3)
                            (total_progress s3) (cerr s3) true (Some "")))).
    { intros j Hj. destruct (Z.le_gt_cases image_height 0) as [Hle|Hgt].
      - replace (Z.to_nat image_height) with O by lia. exists "".
        cbn [iter_down]. do 2 f_equal.
        cbn [unlines fold_right]. rewrite !append_assoc. reflexivity.
      - rewrite (Hj Hgt). edestruct dump_rows as [err E]. rewrite E.
        rewrite appended_appended. exists err. do 2 f_equal.
        cbn [unlines fold_right]. rewrite !append_assoc. reflexivity. }
    destruct (Hloop (image_height - 1)) as [err E]; [lia|].
    unfold bind in E. rewrite E. rewrite print_cerr_appended, appended_appended.
    rewrite append_nil_r. eexists. reflexivity.
  - rewrite print_cerr_appended. reflexivity.
Qed.

End Main.

(** *** The pixels of the file *)

Section Pixels.

Context {double : Type} {ops : DoubleOps double}.

Lemma lookup_concat_uniform {A} (n : nat) (ls : list (list A)) (k i : nat)
    (l : list A) :
  Forall (fun l => List.length l = n) ls -> ls !! k = Some l -> (i < n)%nat ->
  concat ls !! (k * n + i)%nat = l !! i.
Proof.
  intros Hls. revert k. induction Hls as [|l0 ls Hl0 _ IH]; intros k Hk Hi.
  - rewrite lookup_nil in Hk. discriminate.
  - cbn [concat]. destruct k as [|k].
    + injection Hk as ->. rewrite lookup_app_l by (cbn; lia). reflexivity.
    + cbn in Hk. rewrite lookup_app_r by (rewrite Hl0; lia).
      replace (S k * n + i - List.length l0)%nat with (k * n + i)%nat
        by (rewrite Hl0; lia).
      apply IH; assumption.
Qed.

Lemma length_concat_uniform {A} (n : nat) (ls : list (list A)) :
  Forall (fun l => List.length l = n) ls ->
  List.length (concat ls) = (List.length ls * n)%nat.
Proof.
  induction 1 as [|l0 ls Hl0 _ IH]; [reflexivity|].
  cbn [concat]. rewrite length_app, IH, Hl0. cbn. lia.
Qed.

Variables (width height : Z) (arr : matrix double).

Lemma pixel_rows_uniform :
  Forall (fun l : list (color double) => List.length l = Z.to_nat width)
    ((fun j => (fun i => fetch arr j i) <$> seqZ 0 width)
       <$> reverse (seqZ 0 height)).
Proof.
  apply Forall_fmap, Forall_forall. intros j _. cbn.
  rewrite length_fmap, length_seqZ. reflexivity.
Qed.

Lemma length_pixels_top_down :
  List.length (pixels_top_down width height arr)
  = (Z.to_nat height * Z.to_nat width)%nat.
Proof.
  unfold pixels_top_down.
  rewrite (length_concat_uniform _ _ pixel_rows_uniform).
  rewrite length_fmap, length_reverse, length_seqZ. reflexivity.
Qed.

(** The pixel of row [j] and column [i] is at the place of the row-major
    order that starts with the last row. *)
Lemma lookup_pixels_top_down (j i : Z) :
  0 <= j < height -> 0 <= i < width ->
  pixels_top_down width height arr
    !! Z.to_nat ((height - 1 - j) * width + i)
  = Some (fetch arr j i).
Proof.
  intros Hj Hi. unfold pixels_top_down.
  replace (Z.to_nat ((height - 1 - j) * width + i))
    with (Z.to_nat (height - 1 - j) * Z.to_nat width + Z.to_nat i)%nat by nia.
  rewrite (lookup_concat_uniform _ _ _ _
             ((fun i => fetch arr j i) <$> seqZ 0 width) pixel_rows_uniform).
  - rewrite list_lookup_fmap, lookup_seqZ_lt by lia. cbn.
    do 2 f_equal. lia.
  - rewrite list_lookup_fmap, reverse_lookup
      by (rewrite length_seqZ; lia).
    rewrite length_seqZ, lookup_seqZ_lt by lia. cbn. do 3 f_equal. lia.
  - lia.
Qed.

Lemma pixels_top_down_all (Q : color double -> Prop) :
  (forall j i, Q (fetch arr j i)) -> Forall Q (pixels_top_down width height arr).
Proof.
  intros HQ. unfold pixels_top_down. apply Forall_concat, Forall_fmap.
  apply Forall_forall. intros j _. cbn. apply Forall_fmap, Forall_forall.
  intros i _. apply HQ.
Qed.

Lemma ppm_lines_no_newline : Forall no_newline (ppm_lines width height arr).
Proof.
  unfold ppm_lines. repeat apply Forall_cons_2.
  - cbn. repeat split; discriminate.
  - apply no_newline_append; [apply no_newline_string_of_int|].
    apply no_newline_append; [cbn; split; [discriminate|exact I]|].
    apply no_newline_string_of_int.
  - cbn. repeat split; discriminate.
  - apply Forall_fmap, Forall_forall. intros c _. apply no_newline_pixel_text.
Qed.

End Pixels.

(** *** The output file *)

Section Format.

Context {double : Type} {ops : DoubleOps double}.

Variable val : double -> R.
Hypothesis exact : exact_arith val.
Hypothesis cast : exact_cast val.

Lemma clamp_unit (g : double) :
  (0 <= val (clamp g (d_of_int 0) (d_of_int 1)) <= 1)%R.
Proof.
  pose proof (val_of_int val exact 0) as H0.
  pose proof (val_of_int val exact 1) as H1.
  unfold clamp.
  destruct (g <? d_of_int 0)%D eqn:Elow; [lra|].
  destruct (d_of_int 1 <? g)%D eqn:Ehigh; [lra|].
  split; apply Rnot_lt_le; intros Hlt.
  - rewrite <- H0 in Hlt. apply (val_lt val exact) in Hlt. congruence.
  - rewrite <- H1 in Hlt. apply (val_lt val exact) in Hlt. congruence.
Qed.

Lemma Rtrunc_byte (r : R) : (0 <= r <= 255)%R -> 0 <= Ideal.Rtrunc r <= 255.
Proof.
  intros Hr. unfold Ideal.Rtrunc. destruct (Rle_dec 0 r) as [_|Hneg]; [|lra].
  split.
  - apply Zfloor_lub. lra.
  - rewrite <- (ZfloorZ 255). apply Zfloor_le. lra.
Qed.

Lemma format_channel_ok (v : double) (n : Z) : channel_ok (format_channel v n).
Proof.
  unfold channel_ok, format_channel. rewrite cast. apply Rtrunc_byte.
  rewrite (val_mul val exact), (val_of_int val exact).
  pose proof (clamp_unit (d_sqrt (v / d_of_int n)%D)). lra.
Qed.

Lemma format_color_spec_ok (c : color double) (n : Z) :
  color_ok (format_color_spec c n).
Proof. repeat split; apply format_channel_ok. Qed.

Lemma cast_zero : d_to_int (d_of_int 0) = 0.
Proof.
  rewrite cast, (val_of_int val exact). unfold Ideal.Rtrunc.
  destruct (Rle_dec 0 0) as [_|Hneg]; [apply (ZfloorZ 0)|lra].
Qed.

End Format.

Section Output.

Context {double : Type} {ops : DoubleOps double} {libc : LibC}
        {headers : Headers double}.

Local Open Scope string_scope.

Variables (thread_count image_width : Z) (aspect_ratio : double).
Variables (samples_per_pixel max_depth : Z).

Local Abbreviation image_height := (height_of image_width aspect_ratio).
Local Abbreviation run_main :=
  (main_with thread_count image_width aspect_ratio samples_per_pixel max_depth).
Local Abbreviation run_render :=
  (render thread_count image_width aspect_ratio samples_per_pixel max_depth).

(** The file [main] leaves when [image.ppm] can be opened. *)
Lemma main_with_file (s : process) :
  writable s = true ->
  fst (run_main s) = 0
  /\ image_ppm (snd (run_main s))
     = Some (unlines (ppm_lines image_width image_height (fst (run_render s)))).
Proof.
  intros Hw. pose proof (main_with_outcome thread_count image_width
                           aspect_ratio samples_per_pixel max_depth s) as H.
  cbv zeta in H. rewrite Hw in H. destruct H as [err ->].
  split; reflexivity.
Qed.

Lemma main_with_no_file (s : process) :
  writable s = false ->
  run_main s
  = (1, appended ("Error: output file could not be opened." ++ newline) ""
          (snd (run_render s))).
Proof.
  intros Hw. pose proof (main_with_outcome thread_count image_width
                           aspect_ratio samples_per_pixel max_depth s) as H.
  cbv zeta in H. rewrite Hw in H. exact H.
Qed.

(** The rows of every thread lie below [N * (H / N)]. *)
Lemma thread_list_rows (N H : Z) (th : Z * Z) :
  0 < N -> 0 <= H -> th ∈ thread_list N H ->
  0 <= fst th /\ snd th < N * (H / N).
Proof.
  intros HN HH Hth. rewrite thread_list_bands in Hth by lia.
  rewrite Z.quot_div_nonneg in Hth by lia.
  apply list_elem_of_fmap in Hth as (k & -> & Hk).
  apply elem_of_seqZ in Hk. unfold band. cbn [fst snd].
  assert (0 <= H / N) by (apply Z.div_pos; lia). nia.
Qed.

(** The file, given the range of what [format_color] returns: when
    [image.ppm] can be opened, the width and the height are not negative
    and the stored colours print as integers of [0, 255], the file is
    exactly the lines [P3], [<width> <height>], [255] and then one line
    [<r> <g> <b>] per pixel, [width * height] of them, the rows of the
    buffer from the last (the top of the picture) to row 0 and each row
    from column 0 on, every channel within [0, 255]. *)
Lemma output_file_lines (s : process) :
  writable s = true -> 0 < thread_count ->
  0 <= image_width -> 0 <= image_height ->
  d_to_int (d_of_int 0) = 0 ->
  (forall c n, color_ok (format_color c n)) ->
  exists (arr : matrix double) (pixels : list (color double)) (text : string),
    arr = fst (run_render s)
    /\ pixels = pixels_top_down image_width image_height arr
    /\ image_ppm (snd (run_main s)) = Some text
    /\ text = unlines (lines text)
    /\ lines text
       = "P3" :: (string_of_int image_width ++ " " ++ string_of_int image_height)
              :: "255" :: (pixel_text <$> pixels)
    /\ List.length pixels = Z.to_nat (image_width * image_height)
    /\ (forall j i, 0 <= j < image_height -> 0 <= i < image_width ->
          pixels !! Z.to_nat ((image_height - 1 - j) * image_width + i)
          = Some (fetch arr j i))
    /\ Forall (fun c =>
                 pixel_text c
                 = string_of_int (d_to_int (x c)) ++ " "
                   ++ string_of_int (d_to_int (y c)) ++ " "
                   ++ string_of_int (d_to_int (z c))
                 /\ 0 <= d_to_int (x c) <= 255
                 /\ 0 <= d_to_int (y c) <= 255
                 /\ 0 <= d_to_int (z c) <= 255) pixels.
Proof.
  intros Hw HN Hwidth Hheight Hzero Hformat.
  destruct (main_with_file s Hw) as [_ Hfile].
  pose proof (ppm_lines_no_newline image_width image_height (fst (run_render s)))
    as Hlines.
  eexists _, _, _. split; [reflexivity|]. split; [reflexivity|].
  split; [exact Hfile|]. rewrite (lines_unlines _ Hlines).
  split; [reflexivity|]. split; [reflexivity|].
  split; [rewrite length_pixels_top_down; lia|].
  split; [intros j i; apply lookup_pixels_top_down|].
  apply pixels_top_down_all. intros j i. split; [reflexivity|].
  assert (Hok : color_ok (fetch (fst (run_render s)) j i)); [|exact Hok].
  revert j i.
  apply (render_keeps s (fun arr => forall j i, color_ok (fetch arr j i))).
  - intros th arr j i c _ _ Harr j' i'.
    destruct (fetch_store_cases arr j i (format_color c samples_per_pixel) j' i')
      as [-> | ->]; [apply Hformat|apply Harr].
  - intros j i. rewrite image_matrix_zero, fetch_replicate.
    unfold color_ok, channel_ok. cbn. rewrite Hzero. lia.
  - split; reflexivity.
Qed.


(** C8. [main] exits with a status other than 0 exactly when
    [image.ppm] cannot be opened.  In that case the status is 1, the last
    thing written to the error stream is the diagnostic, and the file is
    left as it was; otherwise the status is 0 and the file holds the whole
    image, header and one line for each of the pixels. *)
Theorem main_exit_status (s : process) :
  (fst (run_main s) <> 0 <-> writable s = false)
  /\ (writable s = false ->
        fst (run_main s) = 1
        /\ cerr (snd (run_main s))
           = cerr (snd (run_render s))
             ++ "Error: output file could not be opened." ++ newline
        /\ image_ppm (snd (run_main s)) = image_ppm s)
  /\ (writable s = true ->
        fst (run_main s) = 0
        /\ image_ppm (snd (run_main s))
           = Some (unlines (ppm_lines image_width image_height
                              (fst (run_render s))))
        /\ List.length (ppm_lines image_width image_height (fst (run_render s)))
           = (3 + Z.to_nat image_height * Z.to_nat image_width)%nat).
Proof.
  assert (Hfail : writable s = false ->
            fst (run_main s) = 1
            /\ cerr (snd (run_main s))
               = cerr (snd (run_render s))
                 ++ "Error: output file could not be opened." ++ newline
            /\ image_ppm (snd (run_main s)) = image_ppm s).
  { intros Hw. rewrite (main_with_no_file s Hw). cbn [fst snd appended cerr image_ppm].
    split; [reflexivity|]. split; [reflexivity|].
    destruct (render_files thread_count image_width aspect_ratio
                samples_per_pixel max_depth s) as [_ ->].
    destruct (image_ppm s); [rewrite append_nil_r|]; reflexivity. }
  assert (Hgood : writable s = true ->
            fst (run_main s) = 0
            /\ image_ppm (snd (run_main s))
               = Some (unlines (ppm_lines image_width image_height
                                  (fst (run_render s))))
            /\ List.length (ppm_lines image_width image_height
                              (fst (run_render s)))
               = (3 + Z.to_nat image_height * Z.to_nat image_width)%nat).
  { intros Hw. destruct (main_with_file s Hw) as [Hfst Hfile].
    split; [exact Hfst|]. split; [exact Hfile|].
    unfold ppm_lines. cbn [List.length].
    rewrite length_fmap, length_pixels_top_down. reflexivity. }
  split; [|split; assumption].
  destruct (writable s) eqn:Hw.
  - destruct (Hgood eq_refl) as [-> _]. split; [congruence|discriminate].
  - destruct (Hfail eq_refl) as [-> _]. split; [reflexivity|discriminate].
Qed.

(** C10. [image_matrix] returns [height] rows of [width] cells, each the
    zero colour.  Hence, when the file is written, a row that no worker
    is given (one of the rows from [N * (H / N)] on) is still all zero in
    the buffer and is in the file, each of its pixels as the line
    [0 0 0]. *)
Theorem unassigned_rows_black (s : process) :
  writable s = true -> 0 < thread_count ->
  0 <= image_width -> 0 <= image_height ->
  d_to_int (d_of_int 0) = 0 ->
  (forall width height : Z,
      image_matrix (double := double) width height
      = replicate (Z.to_nat height) (replicate (Z.to_nat width) (vec3_int 0 0 0)))
  /\ (forall j i text,
        thread_count * (image_height / thread_count) <= j < image_height ->
        0 <= i < image_width ->
        image_ppm (snd (run_main s)) = Some text ->
        workers_of_row (thread_list thread_count image_height) j = []
        /\ fetch (fst (run_render s)) j i = vec3_int 0 0 0
        /\ List.length (lines text)
           = (3 + Z.to_nat image_height * Z.to_nat image_width)%nat
        /\ lines text
             !! Z.to_nat (3 + (image_height - 1 - j) * image_width + i)
           = Some "0 0 0").
Proof.
  intros Hw HN Hwidth Hheight Hzero.
  split; [intros width height; apply image_matrix_zero|].
  intros j i text Hj Hi Htext.
  assert (Hq : 0 <= thread_count * (image_height / thread_count))
    by (apply Z.mul_nonneg_nonneg; [lia|apply Z.div_pos; lia]).
  destruct (main_with_file s Hw) as [_ Hfile].
  assert (text = unlines (ppm_lines image_width image_height
                            (fst (run_render s)))) as -> by congruence.
  rewrite (lines_unlines _ (ppm_lines_no_newline _ _ _)).
  assert (Hrow : forall i, fetch (fst (run_render s)) j i = vec3_zero).
  { apply (render_keeps s (fun arr => forall i, fetch arr j i = vec3_zero)).
    - intros th arr j' i' c Hth Hj' Harr i0.
      rewrite fetch_store_other_row; [apply Harr|].
      apply thread_list_rows in Hth; lia.
    - intros i0. rewrite image_matrix_zero. apply fetch_replicate.
    - split; reflexivity. }
  split; [|split; [apply Hrow|split]].
  - unfold workers_of_row.
    assert (Hall : Forall (fun th => ~ (fst th <= j <= snd th))
                     (thread_list thread_count image_height)).
    { apply Forall_forall. intros th Hth.
      apply thread_list_rows in Hth; lia. }
    induction Hall as [|th threads Hth _ IH]; [reflexivity|].
    rewrite filter_cons_False by exact Hth. exact IH.
  - unfold ppm_lines. cbn [List.length].
    rewrite length_fmap, length_pixels_top_down. reflexivity.
  - replace (Z.to_nat (3 + (image_height - 1 - j) * image_width + i))
      with (3 + Z.to_nat ((image_height - 1 - j) * image_width + i))%nat by nia.
    unfold ppm_lines.
    match goal with
    | |- (?a :: ?b :: ?c :: ?rest) !! _ = _ =>
        change (a :: b :: c :: rest) with ([a; b; c] ++ rest)%list
    end.
    rewrite lookup_app_r by (cbn; lia). cbn [List.length].
    replace (3 + Z.to_nat ((image_height - 1 - j) * image_width + i) - 3)%nat
      with (Z.to_nat ((image_height - 1 - j) * image_width + i)) by lia.
    rewrite list_lookup_fmap, lookup_pixels_top_down by lia.
    rewrite Hrow. cbn. unfold pixel_text. cbn [x y z vec3_zero vec3_int].
    rewrite Hzero. reflexivity.
Qed.

End Output.

(** *** The scene generator *)

Section Scene.

Context {double : Type} {ops : DoubleOps double} {libc : LibC}.

Hypothesis rand_range : forall g, 0 <= fst (rand g) <= RAND_MAX.

Lemma yields_ret {A} (Q : A -> Prop) (a : A) : Q a -> yields Q (ret a).
Proof. intros Ha s. exact Ha. Qed.

Lemma yields_bind {A B} (P : A -> Prop) (Q : B -> Prop) (m : M A) (k : A -> M B) :
  yields P m -> (forall a, P a -> yields Q (k a)) -> yields Q (bind m k).
Proof.
  intros Hm Hk s. unfold bind. specialize (Hm s).
  destruct (m s) as [a s']. apply Hk. exact Hm.
Qed.

Lemma yields_weaken {A} (P Q : A -> Prop) (m : M A) :
  yields P m -> (forall a, P a -> Q a) -> yields Q m.
Proof. intros Hm HPQ s. apply HPQ, Hm. Qed.

Lemma iter_up_idx {A} (I : Z -> A -> Prop) (body : Z -> A -> A) (n : nat)
    (i : Z) (a : A) :
  (forall k a, i <= k < i + Z.of_nat n -> I k a -> I (k + 1) (body k a)) ->
  I i a -> I (i + Z.of_nat n) (iter_up n i body a).
Proof.
  revert i a. induction n as [|n IH]; intros i a Hbody Ha.
  - replace (i + Z.of_nat 0) with i by lia. exact Ha.
  - cbn [iter_up]. replace (i + Z.of_nat (S n)) with (i + 1 + Z.of_nat n) by lia.
    apply IH.
    + intros k a' Hk. apply Hbody. lia.
    + apply Hbody; [lia|exact Ha].
Qed.

Lemma yields_for_upM {A} (I : Z -> A -> Prop) (lo hi : Z)
    (body : Z -> A -> M A) (a : A) :
  lo <= hi ->
  (forall k a, lo <= k < hi -> I k a -> yields (I (k + 1)) (body k a)) ->
  I lo a -> yields (I hi) (for_upM lo hi body a).
Proof.
  intros Hle Hbody Ha s. unfold for_upM, for_up.
  remember (Z.to_nat (hi - lo)) as n eqn:Hn.
  assert (Hhi : hi = lo + Z.of_nat n) by lia. rewrite Hhi.
  apply (iter_up_idx (fun k (st : A * process) => I k (fst st))).
  - intros k [a' s'] Hk Ha'. apply Hbody; [lia|exact Ha'].
  - exact Ha.
Qed.

Lemma yields_random_double : yields is_draw random_double.
Proof.
  intros s. unfold random_double, with_rng.
  pose proof (rand_range (rng s)) as Hk.
  destruct (rand (rng s)) as [k g]. exists k. split; [exact Hk|reflexivity].
Qed.

Lemma yields_random_double_in (min max : double) :
  yields (is_draw_in min max) (random_double_in min max).
Proof.
  apply (yields_bind is_draw); [apply yields_random_double|].
  intros r Hr. apply yields_ret. exists r. split; [exact Hr|reflexivity].
Qed.

Lemma yields_color_random : yields (is_color is_draw) color_random.
Proof.
  apply (yields_bind is_draw); [apply yields_random_double|]. intros a Ha.
  apply (yields_bind is_draw); [apply yields_random_double|]. intros b Hb.
  apply (yields_bind is_draw); [apply yields_random_double|]. intros c Hc.
  apply yields_ret. repeat split; assumption.
Qed.

Lemma yields_color_random_in (min max : double) :
  yields (is_color (is_draw_in min max)) (color_random_in min max).
Proof.
  apply (yields_bind (is_draw_in min max)); [apply yields_random_double_in|].
  intros a Ha.
  apply (yields_bind (is_draw_in min max)); [apply yields_random_double_in|].
  intros b Hb.
  apply (yields_bind (is_draw_in min max)); [apply yields_random_double_in|].
  intros c Hc. apply yields_ret. repeat split; assumption.
Qed.

Lemma grid_rows_succ (n : Z) :
  0 <= n ->
  grid_rows (n + 1)
  = grid_rows n ++ ((fun b => (-3 + n, b)) <$> seqZ (-3) 6).
Proof.
  intros Hn. unfold grid_rows. rewrite seqZ_app by lia.
  rewrite fmap_app, concat_app. f_equal.
Qed.

(** The scene is the ground sphere, what the grid points add, in the
    order they are visited, and the three feature spheres. *)
Lemma random_scene_spec : yields scene_spec random_scene.
Proof.
  unfold random_scene.
  apply (yields_bind
           (fun w => exists cells,
              Forall2 (fun ab cell => grid_cell (fst ab) (snd ab) cell)
                (grid_rows (3 + 3)) cells
              /\ w = [ground_sphere] ++ concat cells)).
  2: { intros w (cells & Hcells & ->). apply yields_ret. exists cells.
       split; [exact Hcells|]. unfold add, feature_spheres.
       rewrite <- !app_assoc. reflexivity. }
  apply (yields_for_upM
           (fun a w => exists cells,
              Forall2 (fun ab cell => grid_cell (fst ab) (snd ab) cell)
                (grid_rows (a + 3)) cells
              /\ w = [ground_sphere] ++ concat cells)); [lia| |].
  2: { exists []. split; [constructor|reflexivity]. }
  intros a w Ha (cells & Hcells & ->).
  apply (yields_weaken
           (fun w' => exists row,
              Forall2 (grid_cell a) (seqZ (-3) (3 + 3)) row
              /\ w' = ([ground_sphere] ++ concat cells) ++ concat row)).
  2: { intros w' (row & Hrow & ->).
       exists (cells ++ row). split.
       - replace (a + 1 + 3) with (a + 3 + 1) by lia.
         rewrite grid_rows_succ by lia. apply Forall2_app; [exact Hcells|].
         apply Forall2_fmap_l. replace (-3 + (a + 3)) with a by lia.
         exact Hrow.
       - rewrite concat_app, app_assoc. reflexivity. }
  apply (yields_for_upM
           (fun b w' => exists row,
              Forall2 (grid_cell a) (seqZ (-3) (b + 3)) row
              /\ w' = ([ground_sphere] ++ concat cells) ++ concat row));
    [lia| |].
  2: { exists []. split; [constructor|]. rewrite app_nil_r. reflexivity. }
  intros b w' Hb (row & Hrow & ->).
  assert (Hstep : forall cell, grid_cell a b cell ->
            exists row',
              Forall2 (grid_cell a) (seqZ (-3) (b + 1 + 3)) row'
              /\ (([ground_sphere] ++ concat cells) ++ concat row) ++ cell
                 = ([ground_sphere] ++ concat cells) ++ concat row').
  { intros cell Hcell. exists (row ++ [cell]). split.
    - replace (b + 1 + 3) with (b + 3 + 1) by lia. rewrite seqZ_app by lia.
      apply Forall2_app; [exact Hrow|].
      change (seqZ (-3 + (b + 3)) 1) with [-3 + (b + 3)].
      replace (-3 + (b + 3)) with b by lia. repeat constructor. exact Hcell.
    - rewrite concat_app. cbn [concat]. rewrite app_nil_r, app_assoc.
      reflexivity. }
  apply (yields_bind is_draw); [apply yields_random_double|].
  intros choose_mat Hchoose.
  apply (yields_bind is_draw); [apply yields_random_double|]. intros rx Hrx.
  apply (yields_bind is_draw); [apply yields_random_double|]. intros rz Hrz.
  cbv zeta.
  assert (Hcell : forall cell,
            (if (length (vec3_sub
                           (mk_vec3 (d_of_int a + dec 9 1 * rx)%D (dec 2 1)
                                    (d_of_int b + dec 9 1 * rz)%D)
                           feature_point) >? dec 9 1)%D
             then exists m, small_material choose_mat m
                    /\ cell = [mk_sphere
                                 (mk_vec3 (d_of_int a + dec 9 1 * rx)%D (dec 2 1)
                                          (d_of_int b + dec 9 1 * rz)%D)
                                 (dec 2 1) m]
             else cell = []) -> grid_cell a b cell).
  { intros cell Hc. exists choose_mat, rx, rz. repeat split; assumption. }
  fold feature_point. fold feature_point in Hcell.
  destruct (_ >? dec 9 1)%D.
  2: { apply yields_ret. rewrite <- (app_nil_r (_ ++ concat row)).
       apply Hstep, Hcell. reflexivity. }
  unfold small_material in Hcell.
  destruct (choose_mat <? dec 8 1)%D; [|destruct (choose_mat <? dec 95 2)%D].
  - apply (yields_bind (is_color is_draw)); [apply yields_color_random|].
    intros c1 Hc1.
    apply (yields_bind (is_color is_draw)); [apply yields_color_random|].
    intros c2 Hc2. apply yields_ret. apply Hstep, Hcell. eauto 10.
  - apply (yields_bind (is_color (is_draw_in (dec 5 1) (d_of_int 1))));
      [apply yields_color_random_in|]. intros albedo Halbedo.
    apply (yields_bind (is_draw_in (d_of_int 0) (dec 5 1)));
      [apply yields_random_double_in|]. intros fuzz Hfuzz.
    apply yields_ret. apply Hstep, Hcell. eauto 10.
  - apply yields_ret. apply Hstep, Hcell. eauto.
Qed.

End Scene.

Section SceneBounds.

Context {double : Type} {ops : DoubleOps double} {libc : LibC}.

Variable val : double -> R.
Hypothesis exact : exact_arith val.
Hypothesis rand_max_pos : 0 <= RAND_MAX.

Lemma is_draw_exact (v : double) : is_draw v -> (0 <= val v < 1)%R.
Proof.
  intros (k & Hk & ->).
  assert (Hden : val (d_of_int RAND_MAX + dec 10 1)%D = (IZR RAND_MAX + 1)%R).
  { rewrite (val_add val exact), (val_of_int val exact), (val_dec val exact)
      by lia. change (10 ^ 1) with 10. lra. }
  assert (HM : (0 <= IZR RAND_MAX)%R) by (apply IZR_le; lia).
  assert (Hk0 : (0 <= IZR k)%R) by (apply IZR_le; lia).
  assert (HkM : (IZR k <= IZR RAND_MAX)%R) by (apply IZR_le; lia).
  rewrite (val_div val exact), Hden, (val_of_int val exact) by (rewrite Hden; lra).
  split.
  - apply Rmult_le_pos; [exact Hk0|]. apply Rlt_le, Rinv_0_lt_compat. lra.
  - apply (Rmult_lt_reg_r (IZR RAND_MAX + 1)); [lra|].
    unfold Rdiv. rewrite Rmult_assoc, Rinv_l by lra. lra.
Qed.

Lemma is_draw_in_exact (min max v : double) :
  (val min <= val max)%R -> is_draw_in min max v ->
  (val min <= val v <= val max)%R.
Proof.
  intros Hle (r & Hr & ->). apply is_draw_exact in Hr.
  rewrite (val_add val exact), (val_mul val exact), (val_sub val exact).
  nra.
Qed.

End SceneBounds.

Section SceneContents.

Context {double : Type} {ops : DoubleOps double} {libc : LibC}.

(** C7. With a [rand()] that returns values of [0 .. RAND_MAX],
    [random_scene] returns exactly: the ground sphere (centre
    [(0,-1000,0)], radius 1000, diffuse, albedo 0.5); then, for each grid
    point [(a, b)] with [a] and [b] from -3 to 2, nothing or one sphere of
    radius 0.2 at [(a + 0.9*rx, 0.2, b + 0.9*rz)], there exactly when that
    centre is farther than 0.9 from [(4, 0.2, 0)], its material by the
    draw [c]: diffuse with the product of two random colours when
    [c < 0.8], else reflective with an albedo drawn by
    [color::random(0.5, 1)] and a fuzz by [random_double(0, 0.5)] when
    [c < 0.95], else dielectric of index 1.5; then the three feature
    spheres.  In exact arithmetic the values drawn for the albedo lie in
    [0.5, 1] and those for the fuzz in [0, 0.5]. *)
Theorem random_scene_contents (s : process) :
  (forall g, 0 <= fst (rand g) <= RAND_MAX) ->
  scene_spec (fst (random_scene s))
  /\ (forall val : double -> R, exact_arith val ->
      forall v,
        (is_draw v -> (0 <= val v < 1)%R)
        /\ (is_draw_in (dec 5 1) (d_of_int 1) v -> (1 / 2 <= val v <= 1)%R)
        /\ (is_draw_in (d_of_int 0) (dec 5 1) v -> (0 <= val v <= 1 / 2)%R)).
Proof.
  intros Hrand. split; [apply random_scene_spec, Hrand|].
  intros val exact v.
  assert (HM : 0 <= RAND_MAX) by (specialize (Hrand (rng s)); lia).
  assert (Hhalf : val (dec 5 1) = (1 / 2)%R).
  { rewrite (val_dec val exact) by lia. change (10 ^ 1) with 10. lra. }
  pose proof (val_of_int val exact 0) as H0.
  pose proof (val_of_int val exact 1) as H1.
  split; [apply (is_draw_exact val exact HM)|]. split; intros Hv.
  - apply (is_draw_in_exact val exact HM) in Hv; lra.
  - apply (is_draw_in_exact val exact HM) in Hv; lra.
Qed.

End SceneContents.

(** *** The instances *)

Lemma real_ops_exact (top : R) : exact_arith (ops := Ideal.real_ops top) (fun v => v).
Proof.
  split; try reflexivity.
  intros u v. cbn. destruct (Rlt_dec u v); split; auto; discriminate.
Qed.

(** ** Concrete runs *)

Section Runs.

Import Binary64 Demo.

Local Existing Instance Demo.libc.
Local Existing Instance Demo.headers.

Local Open Scope string_scope.

(** The path tracer on a diffuse ball: the hit scatters, and the result
    is the attenuation times the colour of the scattered ray. *)
Lemma ray_color_hit_witness :
  0 < 2
  /\ hit (ball (lambertian gray)) downward_ray MIN_HIT_LIMIT infinity
     = Some (hit_at (mk_sphere (vec3_int 0 0 (-1)) (dec 5 1) (lambertian gray))
               downward_ray)
  /\ ray_color downward_ray (ball (lambertian gray)) 2 (start true)
     = (vec3_mul gray
          (fst (ray_color (mk_ray (vec3_int 0 (-1) 0) (vec3_int 0 1 0))
                  (ball (lambertian gray)) (2 - 1)
                  (mk_process (libc := Demo.libc) (tail draws) 0 100 "" true None))),
        snd (ray_color (mk_ray (vec3_int 0 (-1) 0) (vec3_int 0 1 0))
               (ball (lambertian gray)) (2 - 1)
               (mk_process (libc := Demo.libc) (tail draws) 0 100 "" true None))).
Proof.
  split; [lia|]. split; [vm_compute; reflexivity|].
  refine (proj1 (ray_color_hit downward_ray (ball (lambertian gray)) 2
                   (start true)
                   (hit_at (mk_sphere (vec3_int 0 0 (-1)) (dec 5 1)
                              (lambertian gray)) downward_ray) _ _)
            gray (mk_ray (vec3_int 0 (-1) 0) (vec3_int 0 1 0))
            (mk_process (libc := Demo.libc) (tail draws) 0 100 "" true None) _).
  - lia.
  - vm_compute. reflexivity.
  - reflexivity.
Defined.

(** On the metal ball the stand-in absorbs: black, with a budget left. *)
Example ray_color_absorbed :
  ray_color downward_ray (ball (metal gray (dec 0 1))) 2 (start true)
  = (vec3_int 0 0 0, start true).
Proof. reflexivity. Qed.

Lemma ray_color_depth_exhausted_witness :
  0 <= 0
  /\ ray_color downward_ray (ball (lambertian gray)) 0 (start true)
     = (vec3_int 0 0 0, start true).
Proof.
  split; [lia|].
  apply (ray_color_depth_exhausted downward_ray (ball (lambertian gray)) 0
           (start true)). lia.
Defined.

Lemma ray_color_terminates_witness :
  exists c s',
    ray_color_fuel 31 downward_ray (ball (dielectric (dec 15 1))) 30 (start true)
    = Some (c, s')
    /\ (forall fuel, (Z.to_nat 30 < fuel)%nat ->
          ray_color_fuel fuel downward_ray (ball (dielectric (dec 15 1))) 30
            (start true) = Some (c, s'))
    /\ ray_color downward_ray (ball (dielectric (dec 15 1))) 30 (start true)
       = (c, s').
Proof.
  exact (ray_color_terminates downward_ray (ball (dielectric (dec 15 1))) 30
           (start true)).
Defined.

(** Through the glass ball of the stand-ins the ray goes on downwards and
    hits again at every depth: all thirty nested calls are made, the result
    is the black of the exhausted budget, and with one activation less the
    budget of activations runs out. *)
Example ray_color_thirty_bounces :
  fst (ray_color downward_ray (ball (dielectric (dec 15 1))) 30 (start true))
  = vec3_int 0 0 0
  /\ fst <$> ray_color_fuel 30 downward_ray (ball (dielectric (dec 15 1))) 30
               (start true)
     = None.
Proof. split; vm_compute; reflexivity. Qed.



(** In IEEE arithmetic too the gradient is white straight down and
    light blue straight up. *)
Example sky_nadir_and_zenith :
  fst (ray_color (mk_ray (vec3_int 0 0 0) (vec3_int 0 (-1) 0)) empty_scene 1
         (start true))
  = mk_vec3 (dec 10 1) (dec 10 1) (dec 10 1)
  /\ fst (ray_color (mk_ray (vec3_int 0 0 0) (vec3_int 0 1 0)) empty_scene 1
            (start true))
     = mk_vec3 (dec 5 1) (dec 7 1) (dec 10 1).
Proof. split; vm_compute; reflexivity. Qed.

(** Three workers on ten rows: three rows each, row 9 is left over. *)
Lemma thread_list_partition_witness :
  0 < 3 /\ 0 <= 10
  /\ thread_list 3 10 !! Z.to_nat 2 = Some (2 * (10 / 3), 2 * (10 / 3) + 10 / 3 - 1)
  /\ concat (band_rows <$> thread_list 3 10) = seqZ 0 (3 * (10 / 3))
  /\ workers_of_row (thread_list 3 10) 9 = []
  /\ 10 - 3 * (10 / 3) = 10 mod 3.
Proof.
  split; [lia|]. split; [lia|].
  destruct (thread_list_partition 3 10) as (_ & Hk & _ & Hcat & _ & _ & Hnone & Hmod);
    [lia|lia|].
  split; [apply (Hk 2); lia|]. split; [exact Hcat|].
  split; [apply Hnone; split; [vm_compute; discriminate|reflexivity]|exact Hmod].
Defined.

Example thread_list_three_on_ten :
  thread_list 3 10 = [(0, 2); (3, 5); (6, 8)]
  /\ thread_list 20 200 !! 19%nat = Some (190, 199)
  /\ thread_list 4 3 = [(0, -1); (0, -1); (0, -1); (0, -1)].
Proof. repeat split; vm_compute; reflexivity. Qed.

(** The stand-in for [format_color] and the zero colour meet the contract
    under which the file format is stated. *)
Lemma demo_byte (k : Z) : 0 <= k <= 255 -> d_to_int (d_of_int k) = k.
Proof.
  intros Hk.
  assert (Hall : forallb (fun k => (trunc (d_of_int k) =? k)%Z) (seqZ 0 256) = true)
    by (vm_compute; reflexivity).
  rewrite forallb_forall in Hall. apply Z.eqb_eq, Hall.
  apply list_elem_of_In, elem_of_seqZ. lia.
Qed.

Lemma demo_format_color_ok (c : color spec_float) (n : Z) :
  color_ok (format_color c n).
Proof.
  unfold color_ok, channel_ok. cbn [format_color headers x y z]. unfold byte.
  rewrite !demo_byte by lia. lia.
Qed.

Lemma demo_rand_range (g : rand_state) : 0 <= fst (rand g) <= RAND_MAX.
Proof. destruct g as [|k g]; cbn; lia. Qed.

(** A 2x2 image: three header lines and four pixel lines. *)
Lemma output_file_lines_doubles :
  writable (start true) = true /\ 0 < 2 /\ 0 <= 2
  /\ 0 <= height_of 2 (dec 10 1)
  /\ d_to_int (d_of_int 0 : spec_float) = 0
  /\ (forall c n, color_ok (format_color c n))
  /\ exists (pixels : list (color spec_float)) (text : string),
       image_ppm (snd (main_with 2 2 (dec 10 1) 1 3 (start true))) = Some text
       /\ lines text = "P3" :: "2 2" :: "255" :: (pixel_text <$> pixels)
       /\ List.length pixels = 4%nat
       /\ Forall color_ok pixels.
Proof.
  split; [reflexivity|]. split; [lia|]. split; [lia|].
  split; [vm_compute; discriminate|]. split; [reflexivity|].
  split; [exact demo_format_color_ok|].
  destruct (output_file_lines 2 2 (dec 10 1) 1 3 (start true))
    as (arr & pixels & text & _ & _ & Hfile & _ & Hlines & Hlen & _ & Hall).
  - reflexivity.
  - lia.
  - lia.
  - vm_compute. discriminate.
  - reflexivity.
  - exact demo_format_color_ok.
  - exists pixels, text. split; [exact Hfile|]. split; [exact Hlines|].
    split; [exact Hlen|].
    apply (Forall_impl _ _ _ Hall). intros c (_ & Hx & Hy & Hz).
    exact (conj Hx (conj Hy Hz)).
Defined.

Example output_file_two_by_two :
  lines <$> image_ppm (snd (main_with 2 2 (dec 10 1) 1 3 (start true)))
  = Some ["P3"; "2 2"; "255"; "142 187 255"; "145 189 255"; "180 210 255";
          "180 210 255"].
Proof. vm_compute. reflexivity. Qed.

(** Both outcomes of [main]: status 1 and the diagnostic when the file
    cannot be opened, status 0 and the image when it can. *)
Lemma main_exit_status_witness :
  (fst (main_with 2 2 (dec 6 1) 1 3 (start false)) = 1
   /\ cerr (snd (main_with 2 2 (dec 6 1) 1 3 (start false)))
      = cerr (snd (render 2 2 (dec 6 1) 1 3 (start false)))
        ++ "Error: output file could not be opened." ++ newline
   /\ image_ppm (snd (main_with 2 2 (dec 6 1) 1 3 (start false))) = None)
  /\ fst (main_with 2 2 (dec 6 1) 1 3 (start true)) = 0.
Proof.
  split.
  - apply (proj1 (proj2 (main_exit_status 2 2 (dec 6 1) 1 3 (start false)))).
    reflexivity.
  - apply (proj2 (proj2 (main_exit_status 2 2 (dec 6 1) 1 3 (start true)))).
    reflexivity.
Defined.

Example main_cannot_open :
  fst (main_with 2 2 (dec 6 1) 1 3 (start false)) = 1
  /\ cerr (snd (main_with 2 2 (dec 6 1) 1 3 (start false)))
     = carriage_return ++ "Processing row: 1/3 " ++ carriage_return
       ++ "Processing row: 2/3 Error: output file could not be opened."
       ++ newline.
Proof. split; vm_compute; reflexivity. Qed.

(** Two workers on three rows of two pixels: row 2, the top of the
    picture, is given to nobody and comes first in the file, black. *)
Lemma unassigned_rows_black_witness :
  writable (start true) = true /\ 0 < 2 /\ 0 <= 2
  /\ 0 <= height_of 2 (dec 6 1)
  /\ d_to_int (d_of_int 0 : spec_float) = 0
  /\ height_of 2 (dec 6 1) = 3
  /\ forall text,
       image_ppm (snd (main_with 2 2 (dec 6 1) 2 3 (start true))) = Some text ->
       workers_of_row (thread_list 2 (height_of 2 (dec 6 1))) 2 = []
       /\ fetch (fst (render 2 2 (dec 6 1) 2 3 (start true))) 2 0 = vec3_int 0 0 0
       /\ List.length (lines text)
          = (3 + Z.to_nat (height_of 2 (dec 6 1)) * Z.to_nat 2)%nat
       /\ lines text
            !! Z.to_nat (3 + (height_of 2 (dec 6 1) - 1 - 2) * 2 + 0)
          = Some "0 0 0".
Proof.
  split; [reflexivity|]. split; [lia|]. split; [lia|].
  split; [vm_compute; discriminate|]. split; [reflexivity|].
  split; [vm_compute; reflexivity|].
  intros text Htext.
  refine (proj2 (unassigned_rows_black 2 2 (dec 6 1) 2 3 (start true) _ _ _ _ _)
            2 0 text _ _ Htext).
  - reflexivity.
  - lia.
  - lia.
  - vm_compute. intros [=].
  - reflexivity.
  - vm_compute. split; [intros [=]|reflexivity].
  - lia.
Defined.

Example unassigned_row_in_file :
  lines <$> image_ppm (snd (main_with 2 2 (dec 6 1) 2 3 (start true)))
  = Some ["P3"; "2 3"; "255"; "0 0 0"; "0 0 0"; "166 201 255"; "170 204 255";
          "63 89 127"; "63 89 127"].
Proof. vm_compute. reflexivity. Qed.

(** The scene on IEEE doubles, for the draws of the stand-in generator:
    the ground sphere first, 36 small spheres, the three feature spheres
    last. *)
Example random_scene_run :
  (fun world => (List.length world, head world, drop 37 world))
    (fst (random_scene (start true)))
  = (40%nat, Some ground_sphere, feature_spheres).
Proof. vm_compute. reflexivity. Qed.

End Runs.

(** The scene in exact arithmetic, where the bounds of the drawn values can
    be read. *)
Lemma random_scene_contents_witness :
  (forall g : rand_state (LibC := Demo.libc),
      0 <= fst (rand g) <= RAND_MAX (LibC := Demo.libc))
  /\ scene_spec (ops := Ideal.real_ops 0) (libc := Demo.libc)
       (fst (random_scene (ops := Ideal.real_ops 0) (Demo.start true)))
  /\ (forall v : R,
        is_draw_in (ops := Ideal.real_ops 0) (libc := Demo.libc)
          (dec (ops := Ideal.real_ops 0) 5 1)
          (d_of_int (DoubleOps := Ideal.real_ops 0) 1) v ->
        (1 / 2 <= v <= 1)%R)
  /\ (forall v : R,
        is_draw_in (ops := Ideal.real_ops 0) (libc := Demo.libc)
          (d_of_int (DoubleOps := Ideal.real_ops 0) 0)
          (dec (ops := Ideal.real_ops 0) 5 1) v ->
        (0 <= v <= 1 / 2)%R).
Proof.
  split; [exact demo_rand_range|].
  destruct (random_scene_contents (ops := Ideal.real_ops 0) (Demo.start true)
              demo_rand_range) as [Hspec Hbounds].
  split; [exact Hspec|].
  split; intros v Hv;
    apply (Hbounds (fun v => v) (real_ops_exact 0) v); exact Hv.
Defined.

(** ** Further properties *)

(** *** rtweekend.h *)

Section Utilities.

Context {double : Type} {ops : DoubleOps double} {libc : LibC}.

Variable val : double -> R.
Hypothesis exact : exact_arith val.

Lemma lt_exact (u v : double) :
  ((u <? v)%D = true -> (val u < val v)%R)
  /\ ((u <? v)%D = false -> (val v <= val u)%R).
Proof.
  pose proof (val_lt val exact u v) as H. split.
  - apply H.
  - intros Hf. apply Rnot_lt_le. intros Hlt. apply H in Hlt. congruence.
Qed.

(** X1. In exact arithmetic and for [min <= max], [clamp] returns a value
    of [min .. max], returns [v] itself when [v] is already there, and
    clamping twice is clamping once. *)
Theorem clamp_range (v min max : double) :
  (val min <= val max)%R ->
  (val min <= val (clamp v min max) <= val max)%R
  /\ ((val min <= val v <= val max)%R -> clamp v min max = v)
  /\ ((val v < val min)%R -> clamp v min max = min)
  /\ ((val max < val v)%R -> clamp v min max = max)
  /\ clamp (clamp v min max) min max = clamp v min max.
Proof.
  intros Hle. unfold clamp.
  destruct (lt_exact v min) as [Hlt1 Hge1]. destruct (lt_exact max v) as [Hlt2 Hge2].
  destruct (lt_exact min min) as [Hmm _]. destruct (lt_exact max max) as [HMM _].
  destruct (lt_exact max min) as [HMm _].
  assert (Emm : (min <? min)%D = false)
    by (destruct (min <? min)%D; [specialize (Hmm eq_refl); lra|reflexivity]).
  assert (EMM : (max <? max)%D = false)
    by (destruct (max <? max)%D; [specialize (HMM eq_refl); lra|reflexivity]).
  assert (EMm : (max <? min)%D = false)
    by (destruct (max <? min)%D; [specialize (HMm eq_refl); lra|reflexivity]).
  destruct (v <? min)%D eqn:E1; [|destruct (max <? v)%D eqn:E2].
  - specialize (Hlt1 eq_refl). rewrite Emm, EMm.
    repeat split; try lra; try reflexivity; intros; lra.
  - specialize (Hge1 eq_refl). specialize (Hlt2 eq_refl). rewrite EMm, EMM.
    repeat split; try lra; try reflexivity; intros; lra.
  - specialize (Hge1 eq_refl). specialize (Hge2 eq_refl). rewrite E1, E2.
    repeat split; try lra; try reflexivity; intros; lra.
Qed.

End Utilities.

(** *** main.cpp: the workers and their rows *)

Section Bands.

Context {double : Type} {ops : DoubleOps double} {libc : LibC}
        {headers : Headers double}.

Implicit Types (arr : matrix double) (s : process).

Lemma thread_list_negative (N H : Z) : N < 0 -> thread_list N H = [].
Proof.
  intros HN. unfold thread_list, for_down.
  replace (Z.to_nat (N - 1 - 0 + 1)) with O by lia. reflexivity.
Qed.

(** X3. For [N > 0] workers and a height [H >= 0], every thread is
    started on rows of the buffer: its first row is not negative, its last
    row is below [H], and it has [H / N] rows.  A negative thread count
    starts no thread. *)
Theorem thread_list_in_buffer (N H : Z) :
  (0 < N -> 0 <= H ->
   Forall (fun th => 0 <= fst th /\ snd th < H
                     /\ snd th + 1 - fst th = H / N) (thread_list N H))
  /\ (N < 0 -> thread_list N H = []).
Proof.
  split.
  - intros HN HH. rewrite thread_list_bands, Z.quot_div_nonneg by lia.
    apply Forall_fmap, Forall_seqZ. intros k Hk. unfold band. cbn.
    assert (0 <= H / N) by (apply Z.div_pos; lia).
    assert (N * (H / N) <= H) by (apply Z.mul_div_le; lia).
    repeat split; nia.
  - apply thread_list_negative.
Qed.

Lemma process_matrix_rows_empty (start_row end_row image_width image_height : Z)
    arr (samples_per_pixel max_depth : Z) (world : hittable_list double)
    (cam : camera) s :
  end_row < start_row ->
  process_matrix_rows start_row end_row image_width image_height arr
    samples_per_pixel max_depth world cam s = (arr, s).
Proof.
  intros Hempty. unfold process_matrix_rows, for_upM, for_up.
  replace (Z.to_nat (end_row + 1 - start_row)) with O by lia. reflexivity.
Qed.

(** X4. A worker stores only into the rows it is given: a cell of any
    other row holds after the call what it held before, whatever the
    buffer; and the call leaves the file system alone.  Called on an empty
    range of rows it does nothing at all: no draw, no progress line. *)
Theorem process_matrix_rows_band (start_row end_row image_width image_height : Z)
    arr (samples_per_pixel max_depth : Z) (world : hittable_list double)
    (cam : camera) s :
  let done := process_matrix_rows start_row end_row image_width image_height
                arr samples_per_pixel max_depth world cam s in
  (forall j i, ~ (start_row <= j <= end_row) ->
      fetch (fst done) j i = fetch arr j i)
  /\ files_as s (snd done)
  /\ (end_row < start_row -> done = (arr, s)).
Proof.
  intros done.
  assert (Hkeeps :
    (forall j, ~ (start_row <= j <= end_row) ->
       forall i, fetch (fst done) j i = fetch arr j i)
    /\ files_as s (snd done)).
  { assert (H : forall j, ~ (start_row <= j <= end_row) ->
                (forall i, fetch (fst done) j i = fetch arr j i)
                /\ files_as s (snd done)).
    { intros j Hj.
      apply (process_matrix_rows_keeps s
               (fun a => forall i, fetch a j i = fetch arr j i)).
      - intros a j' i' c Hj' Ha i. rewrite fetch_store_other_row by lia. apply Ha.
      - reflexivity.
      - split; reflexivity. }
    split; [intros j Hj; apply (H j Hj)|].
    apply (process_matrix_rows_keeps s (fun _ => True)); [auto|exact I|].
    split; reflexivity. }
  destruct Hkeeps as [Hrows Hfiles].
  split; [intros j i Hj; apply Hrows, Hj|]. split; [exact Hfiles|].
  apply process_matrix_rows_empty.
Qed.

Lemma run_threads_empty (threads : list (Z * Z)) arr
    (image_width image_height samples_per_pixel max_depth : Z)
    (world : hittable_list double) (cam : camera) (run : M (matrix double)) :
  Forall (fun th => snd th < fst th) threads ->
  (forall s, run s = (arr, s)) ->
  forall s,
    fold_left
      (fun (run : M (matrix double)) (th : Z * Z) =>
         bind run (fun output_matrix =>
           process_matrix_rows (fst th) (snd th) image_width image_height
             output_matrix samples_per_pixel max_depth world cam))
      threads run s = (arr, s).
Proof.
  intros Hall. revert run. induction Hall as [|th threads Hth _ IH];
    intros run Hrun s; [apply Hrun|].
  cbn [fold_left]. apply IH. intros s'. unfold bind. rewrite Hrun.
  apply process_matrix_rows_empty, Hth.
Qed.

(** X5. With more workers than rows ([0 <= H < N]), or a negative thread
    count, nothing is rendered: every thread gets an empty range of rows,
    the buffer [main] goes on to write out is the zero buffer of
    [image_matrix], and after the scene is built no random number is
    drawn. *)
Theorem render_nothing (thread_count image_width : Z) (aspect_ratio : double)
    (samples_per_pixel max_depth : Z) s :
  let image_height := height_of image_width aspect_ratio in
  thread_count < 0 \/ 0 <= image_height < thread_count ->
  render thread_count image_width aspect_ratio samples_per_pixel max_depth s
  = (image_matrix image_width image_height,
     snd (set_progress 0 image_height (snd (random_scene s)))).
Proof.
  intros image_height Hcount. unfold render, bind.
  fold (height_of image_width aspect_ratio). fold image_height.
  destruct (random_scene s) as [world s1]. cbn [snd].
  destruct (set_progress 0 image_height s1) as [[] s2] eqn:E. cbn [snd].
  unfold multithreaded_raytracing. apply run_threads_empty; [|reflexivity].
  destruct Hcount as [Hneg|Hsmall].
  - rewrite thread_list_negative by lia. constructor.
  - rewrite thread_list_bands by lia. apply Forall_fmap, Forall_seqZ.
    intros k _. unfold band. cbn. rewrite Z.quot_small by lia. lia.
Qed.

End Bands.

(** *** main.cpp: what a worker leaves in its rows *)

Section Written.

Context {double : Type} {ops : DoubleOps double} {libc : LibC}
        {headers : Headers double}.

Implicit Types (arr : matrix double) (v : color double).

Lemma fetch_store_eq arr j i v :
  in_matrix arr j i -> fetch (store arr j i v) j i = v.
Proof.
  intros (Hj & Hi & row & Hrow & Hlen). unfold fetch, store.
  replace ((0 <=? j) && (0 <=? i)) with true by lia.
  rewrite list_lookup_alter_eq, Hrow. cbn.
  rewrite list_lookup_insert_eq by exact Hlen. reflexivity.
Qed.

Lemma fetch_store_ne arr j i v j' i' :
  j <> j' \/ i <> i' -> fetch (store arr j i v) j' i' = fetch arr j' i'.
Proof.
  intros Hne. unfold fetch, store.
  destruct ((0 <=? j) && (0 <=? i)) eqn:Hin; [|reflexivity].
  destruct ((0 <=? j') && (0 <=? i')) eqn:Hin'; [|reflexivity].
  destruct (decide (j = j')) as [<-|Hj].
  - rewrite list_lookup_alter_eq. destruct (arr !! Z.to_nat j) as [row|];
      [|reflexivity].
    cbn. rewrite list_lookup_insert_ne by lia. reflexivity.
  - rewrite list_lookup_alter_ne by lia. reflexivity.
Qed.

Lemma in_matrix_store arr j i v j' i' :
  in_matrix (store arr j i v) j' i' <-> in_matrix arr j' i'.
Proof.
  unfold in_matrix, store.
  destruct ((0 <=? j) && (0 <=? i)); [|reflexivity].
  destruct (decide (Z.to_nat j = Z.to_nat j')) as [E|E].
  - rewrite E, list_lookup_alter_eq. destruct (arr !! Z.to_nat j') as [row|].
    + cbn. split; intros (Hj & Hi & row' & [= <-] & Hlen);
        (split; [exact Hj|split; [exact Hi|]]); eexists; (split; [reflexivity|]).
      * rewrite length_insert in Hlen. exact Hlen.
      * rewrite length_insert. exact Hlen.
    + cbn. split; intros (_ & _ & row' & [=] & _).
  - rewrite list_lookup_alter_ne by exact E. reflexivity.
Qed.

Lemma yields_any {A} (m : M A) : yields (fun _ => True) m.
Proof. intros s. exact I. Qed.

Variables (image_width image_height samples_per_pixel max_depth : Z).
Variables (world : hittable_list double) (cam : camera).

Local Abbreviation pixel :=
  (is_pixel image_width image_height samples_per_pixel max_depth world cam).

(** The sample loop: a body that adds one sample of the pixel on each
    turn leaves the sum of [samples_per_pixel] samples. *)
Lemma accumulate (j i : Z)
    (body : Z -> color double -> M (color double)) :
  (forall k acc s,
      exists c, is_sample image_width image_height max_depth world cam j i c
                /\ fst (body k acc s) = vec3_add acc c) ->
  yields (fun acc =>
            exists samples,
              List.length samples = Z.to_nat samples_per_pixel
              /\ Forall (is_sample image_width image_height max_depth world
                           cam j i) samples
              /\ acc = fold_left vec3_add samples (vec3_int 0 0 0))
    (for_upM 0 samples_per_pixel body (vec3_int 0 0 0)).
Proof.
  intros Hbody s. unfold for_upM, for_up.
  replace (samples_per_pixel - 0) with samples_per_pixel by lia.
  set (n := Z.to_nat samples_per_pixel).
  cut (exists samples,
         List.length samples = Z.to_nat (0 + Z.of_nat n)
         /\ Forall (is_sample image_width image_height max_depth world cam j i)
              samples
         /\ fst (iter_up n 0
                   (fun k (st : color double * process) =>
                      body k (fst st) (snd st))
                   (vec3_int 0 0 0, s))
            = fold_left vec3_add samples (vec3_int 0 0 0)).
  { intros (samples & Hlen & Hall & Hsum). exists samples.
    split; [rewrite Hlen; lia|]. split; assumption. }
  apply (iter_up_idx
           (fun k (st : color double * process) =>
              exists samples,
                List.length samples = Z.to_nat k
                /\ Forall (is_sample image_width image_height max_depth world
                             cam j i) samples
                /\ fst st = fold_left vec3_add samples (vec3_int 0 0 0))).
  - intros k [acc s'] Hk (samples & Hlen & Hall & Hsum). cbn [fst snd] in *.
    destruct (Hbody k acc s') as (c & Hc & ->).
    exists (samples ++ [c]).
    split; [rewrite length_app, Hlen; cbn; lia|].
    split.
    + apply Forall_app. split; [exact Hall|].
      constructor; [exact Hc|constructor].
    + subst acc. rewrite fold_left_app. reflexivity.
  - exists []. repeat split. constructor.
Qed.

Variables (start_row end_row : Z).
Variable arr : matrix double.

(** The cells written when the worker is at row [row] and column [col]:
    those that exist in [arr], in the rows from [start_row] to before [row]
    and in row [row] before [col], hold their finished pixel; no cell has
    appeared or gone. *)
Local Definition written_up_to (row col : Z) (a : matrix double) : Prop :=
  (forall j i, in_matrix a j i <-> in_matrix arr j i)
  /\ (forall j i,
        (start_row <= j < row /\ 0 <= i < image_width)
        \/ (j = row /\ 0 <= i < col) ->
        in_matrix arr j i -> pixel j i (fetch a j i)).

Lemma written_store (row col : Z) (a : matrix double) (v : color double) :
  start_row <= row -> 0 <= col < image_width ->
  pixel row col v ->
  written_up_to row col a ->
  written_up_to row (col + 1) (store a row col v).
Proof.
  intros Hrow Hcol Hv [Hshape Hcells]. split.
  - intros j i. rewrite in_matrix_store. apply Hshape.
  - intros j i Hji Hin.
    destruct (decide (j = row /\ i = col)) as [[-> ->]|Hne].
    + rewrite fetch_store_eq by apply Hshape, Hin. exact Hv.
    + rewrite fetch_store_ne by lia. apply Hcells; [lia|exact Hin].
Qed.

Lemma written_next_row (row : Z) (a : matrix double) :
  written_up_to row image_width a -> written_up_to (row + 1) 0 a.
Proof.
  intros [Hshape Hcells]. split; [exact Hshape|].
  intros j i Hji Hin. apply Hcells; [|exact Hin].
  destruct (decide (j = row)); [right|left]; lia.
Qed.

Lemma process_matrix_rows_written :
  start_row <= end_row + 1 -> 0 <= image_width ->
  yields (written_up_to (end_row + 1) 0)
    (process_matrix_rows start_row end_row image_width image_height arr
       samples_per_pixel max_depth world cam).
Proof.
  intros Hrange Hwidth.
  apply (yields_for_upM (fun row a => written_up_to row 0 a)); [lia| |].
  - intros row a Hrow Ha.
    apply (yields_bind (fun _ => True)); [apply yields_any|]. intros _ _.
    apply (yields_weaken (written_up_to row image_width));
      [|apply written_next_row].
    apply (yields_for_upM (fun col a => written_up_to row col a));
      [lia| |exact Ha].
    intros col a' Hcol Ha'.
    eapply yields_bind.
    + apply (accumulate row col). intros k acc s.
      exists (fst (sample image_width image_height max_depth world cam
                     row col s)).
      split; [exists s; reflexivity|].
      unfold sample, bind, ret.
      destruct (random_double s) as [ru s1].
      destruct (random_double s1) as [rv s2].
      destruct (with_rng _ s2) as [r s3].
      destruct (ray_color r world max_depth s3) as [c s4]. reflexivity.
    + intros acc (samples & Hlen & Hall & ->). apply yields_ret.
      apply written_store; [lia|lia| |exact Ha'].
      exists samples. split; [exact Hlen|]. split; [exact Hall|reflexivity].
  - split; [reflexivity|]. intros j' i' Hji. lia.
Qed.

(** What a worker leaves in the buffer, whatever its range of rows: the
    finished pixels in its rows, every other row as it was, no cell added
    or lost. *)
Lemma process_matrix_rows_pixels (s : process) :
  let a := fst (process_matrix_rows start_row end_row image_width
                  image_height arr samples_per_pixel max_depth world cam s) in
  (forall j i, in_matrix a j i <-> in_matrix arr j i)
  /\ (forall j i, start_row <= j <= end_row -> 0 <= i < image_width ->
        in_matrix arr j i -> pixel j i (fetch a j i))
  /\ (forall j i, ~ (start_row <= j <= end_row) ->
        fetch a j i = fetch arr j i).
Proof.
  intros a. subst a. split; [|split].
  - refine (proj1 (process_matrix_rows_keeps s
                     (fun a => forall j i, in_matrix a j i <-> in_matrix arr j i)
                     image_width image_height samples_per_pixel max_depth
                     world cam start_row end_row arr _ _ s _)).
    + intros a j' i' c _ Ha j i. rewrite in_matrix_store. apply Ha.
    + reflexivity.
    + split; reflexivity.
  - intros j i Hj Hi Hin.
    destruct (process_matrix_rows_written ltac:(lia) ltac:(lia) s)
      as [_ Hcells].
    apply Hcells; [left; lia|exact Hin].
  - intros j i Hj.
    refine (proj1 (process_matrix_rows_keeps s
                     (fun a => fetch a j i = fetch arr j i) image_width
                     image_height samples_per_pixel max_depth world cam
                     start_row end_row arr _ _ s _)).
    + intros a j' i' c Hj' Ha. rewrite fetch_store_other_row by lia.
      exact Ha.
    + reflexivity.
    + split; reflexivity.
Qed.

(** X6. When a worker returns, every cell of its rows (the columns
    [0 .. image_width - 1] of the rows [start_row .. end_row]) that exists
    in the buffer holds its finished pixel: [format_color] of the sum,
    from black, of [samples_per_pixel] samples, each the colour
    [ray_color] gives, at depth [max_depth], to the ray the camera returns
    for [u = (i + random_double()) / (image_width - 1)] and
    [v = (j + random_double()) / (image_height - 1)]. *)
Theorem process_matrix_rows_writes (s : process) (j i : Z) :
  start_row <= j <= end_row -> 0 <= i < image_width ->
  in_matrix arr j i ->
  exists samples : list (color double),
    List.length samples = Z.to_nat samples_per_pixel
    /\ Forall (fun c =>
                 exists s' : process,
                   c = fst ((ru <- random_double ;;
                             rv <- random_double ;;
                             r <- with_rng
                                    (get_ray cam
                                       ((d_of_int i + ru)
                                        / d_of_int (image_width - 1))%D
                                       ((d_of_int j + rv)
                                        / d_of_int (image_height - 1))%D) ;;
                             ray_color r world max_depth)%M s'))
         samples
    /\ fetch (fst (process_matrix_rows start_row end_row image_width
                     image_height arr samples_per_pixel max_depth world cam s))
         j i
       = format_color (fold_left vec3_add samples (vec3_int 0 0 0))
           samples_per_pixel.
Proof.
  intros Hj Hi Hin.
  destruct (process_matrix_rows_pixels s) as (_ & Hcells & _).
  exact (Hcells j i Hj Hi Hin).
Qed.

End Written.

(** *** main.cpp: what the tracer and the scene generator leave alone *)

Section OnlyDraws.

Context {double : Type} {ops : DoubleOps double} {libc : LibC}
        {headers : Headers double}.

Lemma with_state_same (s : process) : with_state (rng s) s = s.
Proof. destruct s. reflexivity. Qed.

Lemma only_draws_ret {A} (a : A) : only_draws (ret a).
Proof. intros s. exists (rng s). symmetry. apply with_state_same. Qed.

Lemma only_draws_bind {A B} (m : M A) (k : A -> M B) :
  only_draws m -> (forall a, only_draws (k a)) -> only_draws (bind m k).
Proof.
  intros Hm Hk s. unfold bind. destruct (Hm s) as [g Hg].
  destruct (m s) as [a s1]. cbn [snd] in Hg. subst s1.
  destruct (Hk a (with_state g s)) as [g' Hg']. exists g'. rewrite Hg'.
  reflexivity.
Qed.

Lemma only_draws_with_rng {A} (f : rand_state -> A * rand_state) :
  only_draws (with_rng f).
Proof.
  intros s. unfold with_rng. destruct (f (rng s)) as [a g]. exists g.
  reflexivity.
Qed.

Lemma only_draws_for_upM {A} (lo hi : Z) (body : Z -> A -> M A) (a : A) :
  (forall k a, only_draws (body k a)) -> only_draws (for_upM lo hi body a).
Proof.
  intros Hbody s. unfold for_upM.
  apply (for_up_inv (fun st : A * process => exists g, snd st = with_state g s)).
  - intros k [a' s'] _ [g Hg]. cbn [fst snd] in *. subst s'.
    destruct (Hbody k a' (with_state g s)) as [g' Hg']. exists g'.
    rewrite Hg'. reflexivity.
  - exists (rng s). symmetry. apply with_state_same.
Qed.

Lemma only_draws_random_double : only_draws random_double.
Proof. apply only_draws_with_rng. Qed.

Lemma only_draws_random_double_in (min max : double) :
  only_draws (random_double_in min max).
Proof.
  apply only_draws_bind; [apply only_draws_random_double|].
  intros r. apply only_draws_ret.
Qed.

Lemma only_draws_color_random : only_draws color_random.
Proof.
  repeat (apply only_draws_bind; [apply only_draws_random_double|intros ?]).
  apply only_draws_ret.
Qed.

Lemma only_draws_color_random_in (min max : double) :
  only_draws (color_random_in min max).
Proof.
  repeat (apply only_draws_bind; [apply only_draws_random_double_in|intros ?]).
  apply only_draws_ret.
Qed.

Lemma only_draws_random_scene : only_draws random_scene.
Proof.
  unfold random_scene.
  apply only_draws_bind; [|intros ?; apply only_draws_ret].
  apply only_draws_for_upM. intros a world.
  apply only_draws_for_upM. intros b world'.
  repeat (apply only_draws_bind; [apply only_draws_random_double|intros ?]).
  repeat match goal with |- only_draws (if ?c then _ else _) => destruct c end.
  - repeat (apply only_draws_bind; [apply only_draws_color_random|intros ?]).
    apply only_draws_ret.
  - apply only_draws_bind; [apply only_draws_color_random_in|intros ?].
    apply only_draws_bind; [apply only_draws_random_double_in|intros ?].
    apply only_draws_ret.
  - apply only_draws_ret.
  - apply only_draws_ret.
Qed.

Lemma only_draws_ray_color_fuel {W} `{!hittable double W} (fuel : nat)
    (r : ray double) (world : W) (depth : Z) (s : process) cs :
  ray_color_fuel fuel r world depth s = Some cs ->
  exists g, snd cs = with_state g s.
Proof.
  revert r depth s cs. induction fuel as [|fuel IH]; intros r depth s cs;
    [discriminate|].
  cbn [ray_color_fuel]. destruct (depth <=? 0).
  { intros [= <-]. exists (rng s). symmetry. apply with_state_same. }
  destruct (hit world r MIN_HIT_LIMIT infinity) as [rec|].
  2: { intros [= <-]. exists (rng s). symmetry. apply with_state_same. }
  destruct (only_draws_with_rng (scatter (mat_ptr rec) r rec) s) as [g Hg].
  destruct (with_rng (scatter (mat_ptr rec) r rec) s) as [[[att sc]|] s1];
    cbn [snd] in Hg; subst s1.
  - destruct (ray_color_fuel fuel sc world (depth - 1) (with_state g s))
      as [[c s2]|] eqn:E; [|discriminate].
    intros [= <-]. destruct (IH _ _ _ _ E) as [g' Hg']. exists g'.
    cbn [snd] in *. rewrite Hg'. reflexivity.
  - intros [= <-]. exists g. reflexivity.
Qed.

Lemma only_draws_ray_color {W} `{!hittable double W} (r : ray double)
    (world : W) (depth : Z) :
  only_draws (ray_color r world depth).
Proof.
  intros s. unfold ray_color.
  destruct (ray_color_fuel _ r world depth s) as [cs|] eqn:E.
  - apply (only_draws_ray_color_fuel _ _ _ _ _ _ E).
  - exists (rng s). symmetry. apply with_state_same.
Qed.

(** X7. [ray_color] and [random_scene] act on the process through
    [rand()] only: whatever the ray, the scene and the depth, the progress
    counters, the error stream and the file are after the call what they
    were before. *)
Theorem tracing_only_draws (s : process) :
  (forall W (hittable_W : hittable double W) (r : ray double) (world : W)
          (depth : Z),
      exists g, snd (ray_color r world depth s) = with_state g s)
  /\ exists g, snd (random_scene s) = with_state g s.
Proof.
  split.
  - intros W hittable_W r world depth. apply only_draws_ray_color.
  - apply only_draws_random_scene.
Qed.

End OnlyDraws.

(** *** main.cpp: the progress report of a worker *)

Section Progress.

Context {double : Type} {ops : DoubleOps double} {libc : LibC}
        {headers : Headers double}.

Implicit Types (arr : matrix double) (s : process).

Lemma concat_texts_app (l1 l2 : list string) :
  fold_right append ""%string (l1 ++ l2)
  = (fold_right append "" l1 ++ fold_right append "" l2)%string.
Proof.
  induction l1 as [|a l1 IH]; [reflexivity|].
  cbn [app fold_right]. rewrite IH, append_assoc. reflexivity.
Qed.

Lemma progress_lines_app (cur tot n m : Z) :
  0 <= n -> 0 <= m ->
  progress_lines cur tot (n + m)
  = (progress_lines cur tot n ++ progress_lines (cur + n) tot m)%string.
Proof.
  intros Hn Hm. unfold progress_lines.
  rewrite seqZ_app by lia. rewrite fmap_app, concat_texts_app. f_equal. f_equal.
  replace (1 + n) with (n + 1) by lia.
  rewrite <- (fmap_add_seqZ n 1 m), <- list_fmap_compose.
  apply list_fmap_ext. intros _ k _. cbn [compose].
  replace (cur + (n + k)) with (cur + n + k) by lia. reflexivity.
Qed.

Lemma progress_lines_one (cur tot : Z) :
  progress_lines cur tot 1 = progress_line (cur + 1) tot.
Proof. unfold progress_lines. cbn. apply append_nil_r. Qed.

Lemma update_progress_line s :
  update_progress s
  = (tt, mk_process (rng s) (current_progress s + 1) (total_progress s)
           (cerr s ++ progress_line (current_progress s + 1) (total_progress s))
           (writable s) (image_ppm s)).
Proof. reflexivity. Qed.

Lemma process_matrix_rows_reported (start_row end_row image_width image_height : Z)
    arr (samples_per_pixel max_depth : Z) (world : hittable_list double)
    (cam : camera) s :
  reported (Z.max 0 (end_row + 1 - start_row)) s
    (snd (process_matrix_rows start_row end_row image_width image_height arr
            samples_per_pixel max_depth world cam s)).
Proof.
  unfold process_matrix_rows. unfold for_upM at 1. unfold for_up.
  set (n := Z.to_nat (end_row + 1 - start_row)).
  replace (Z.max 0 (end_row + 1 - start_row))
    with (start_row + Z.of_nat n - start_row) by lia.
  apply (iter_up_idx
           (fun k (st : matrix double * process) =>
              reported (k - start_row) s (snd st))).
  - intros k [a s1] Hk [g Hg]. cbn [fst snd] in *. subst s1.
    unfold bind at 1. rewrite update_progress_line.
    match goal with
    | |- reported _ _ (snd (for_upM 0 image_width ?body a ?s2)) =>
        destruct (only_draws_for_upM 0 image_width body a) with (s := s2)
          as [g' Hg']
    end.
    + intros i a'.
      apply only_draws_bind; [|intros c; apply only_draws_ret].
      apply only_draws_for_upM. intros sample pixel_color.
      apply only_draws_bind; [apply only_draws_random_double|intros ru].
      apply only_draws_bind; [apply only_draws_random_double|intros rv].
      apply only_draws_bind; [apply only_draws_with_rng|intros r].
      apply only_draws_bind; [apply only_draws_ray_color|intros c].
      apply only_draws_ret.
    + rewrite Hg'. exists g'. unfold with_state.
      cbn [rng current_progress total_progress cerr writable image_ppm].
      replace (k + 1 - start_row) with (k - start_row + 1) by lia.
      rewrite progress_lines_app by lia.
      rewrite progress_lines_one, append_assoc, Z.add_assoc. reflexivity.
  - exists (rng s). replace (start_row - start_row) with 0 by lia.
    unfold progress_lines. cbn. rewrite Z.add_0_r, append_nil_r.
    destruct s. reflexivity.
Qed.

(** X8. A worker run on rows [start_row .. end_row] reports each of its
    rows once: the counter ends [n] higher, where [n] is the number of
    rows, the error stream has gained the [n] progress lines
    ["\rProcessing row: k/total "] for the [n] values [k] following the
    counter at entry, and the total and the file system are unchanged;
    [update_progress] is the case of one row.  (One worker on its own:
    how workers that share the counter interleave is outside the model.) *)
Theorem process_matrix_rows_progress
    (start_row end_row image_width image_height : Z) arr
    (samples_per_pixel max_depth : Z) (world : hittable_list double)
    (cam : camera) s :
  let n := Z.max 0 (end_row + 1 - start_row) in
  let s' := snd (process_matrix_rows start_row end_row image_width
                   image_height arr samples_per_pixel max_depth world cam s) in
  current_progress s' = current_progress s + n
  /\ total_progress s' = total_progress s
  /\ cerr s'
     = (cerr s
        ++ fold_right append ""
             ((fun k => carriage_return ++ "Processing row: "
                        ++ string_of_int (current_progress s + k) ++ "/"
                        ++ string_of_int (total_progress s) ++ " ")
                <$> seqZ 1 n))%string
  /\ files_as s s'
  /\ snd (update_progress s)
     = mk_process (rng s) (current_progress s + 1) (total_progress s)
         (cerr s ++ carriage_return ++ "Processing row: "
          ++ string_of_int (current_progress s + 1) ++ "/"
          ++ string_of_int (total_progress s) ++ " ")
         (writable s) (image_ppm s).
Proof.
  intros n s'.
  destruct (process_matrix_rows_reported start_row end_row image_width
              image_height arr samples_per_pixel max_depth world cam s)
    as [g Hg].
  fold n in Hg. fold s' in Hg. rewrite Hg. cbn.
  repeat split.
Qed.

End Progress.

(** *** main.cpp: main, the order of its steps *)

Section MainOrder.

Context {double : Type} {ops : DoubleOps double} {libc : LibC}
        {headers : Headers double}.

Local Open Scope string_scope.

(** X9. [main] renders first and opens the file afterwards: whatever
    comes after the render draws no random number and leaves the progress
    counters alone, it only adds text to the error stream; and when
    [image.ppm] cannot be opened, the whole render has been done all the
    same: the process is the one the render leaves, with the diagnostic
    added. *)
Theorem main_renders_first (thread_count image_width : Z)
    (aspect_ratio : double) (samples_per_pixel max_depth : Z) (s : process) :
  let rendered := render thread_count image_width aspect_ratio
                    samples_per_pixel max_depth s in
  let done := main_with thread_count image_width aspect_ratio
                samples_per_pixel max_depth s in
  rng (snd done) = rng (snd rendered)
  /\ current_progress (snd done) = current_progress (snd rendered)
  /\ total_progress (snd done) = total_progress (snd rendered)
  /\ (exists err, cerr (snd done) = cerr (snd rendered) ++ err)
  /\ (writable s = false ->
      done = (1, appended ("Error: output file could not be opened."
                           ++ newline) "" (snd rendered))).
Proof.
  cbv zeta.
  pose proof (main_with_outcome thread_count image_width aspect_ratio
                samples_per_pixel max_depth s) as H.
  cbv zeta in H. destruct (writable s).
  - destruct H as [err ->].
    generalize (render thread_count image_width aspect_ratio
                  samples_per_pixel max_depth s).
    intros rendered. cbn [fst snd]. unfold appended at 1 2 3 4.
    cbn [rng current_progress total_progress cerr].
    repeat split; [eexists; reflexivity|intros [=]].
  - rewrite H.
    generalize (render thread_count image_width aspect_ratio
                  samples_per_pixel max_depth s).
    intros rendered. cbn [fst snd]. unfold appended at 1 2 3 4.
    cbn [rng current_progress total_progress cerr].
    repeat split. eexists; reflexivity.
Qed.

End MainOrder.

(** *** main.cpp: the distance test of the scene in exact arithmetic *)

Section Geometry.

Context {double : Type} {ops : DoubleOps double} {libc : LibC}.

Variable val : double -> R.
Hypothesis exact : exact_arith val.
Hypothesis root : exact_sqrt val.

Lemma length_exact (v : vec3 double) :
  val (length v)
  = sqrt (val (x v) * val (x v) + val (y v) * val (y v)
          + val (z v) * val (z v)).
Proof.
  unfold length, length_squared.
  rewrite root, !(val_add val exact), !(val_mul val exact). reflexivity.
Qed.

Lemma grid_cell_full (a b : Z) (cell : list (sphere double)) :
  0 <= RAND_MAX -> a <= 2 -> grid_cell a b cell -> exists sp, cell = [sp].
Proof.
  intros HM Ha (cm & rx & rz & Hcm & Hrx & Hrz & H). cbv zeta in H.
  match type of H with
  | if ?c then _ else _ => assert (Hfar : c = true)
  end.
  { apply (val_lt val exact). rewrite length_exact.
    cbn [x y z vec3_sub feature_point].
    rewrite !(val_sub val exact), (val_add val exact), (val_mul val exact),
      !(val_of_int val exact), !(val_dec val exact) by lia.
    change (10 ^ 1) with 10.
    pose proof (is_draw_exact val exact HM rx Hrx) as Hx.
    assert (HA : (IZR a <= 2)%R) by (apply IZR_le; lia).
    apply Rlt_le_trans with (sqrt (Rsqr (11 / 10))).
    - rewrite sqrt_Rsqr by lra. lra.
    - apply sqrt_le_1_alt. unfold Rsqr.
      match goal with
      | |- (_ <= ?X * ?X + ?Y * ?Y + ?Z * ?Z)%R =>
          assert (0 <= Y * Y)%R by nra; assert (0 <= Z * Z)%R by nra;
          assert (11 / 10 * (11 / 10) <= X * X)%R by nra
      end.
      lra. }
  rewrite Hfar in H. destruct H as (m & _ & ->). eexists. reflexivity.
Qed.

Lemma grid_first_coordinate :
  Forall (fun ab : Z * Z => fst ab <= 2) grid.
Proof.
  unfold grid, grid_rows. apply Forall_concat, Forall_fmap, Forall_seqZ.
  intros a Ha. apply Forall_fmap, Forall_seqZ. intros b _. cbn. lia.
Qed.

Lemma singleton_cells {A B} (P : A -> list B -> Prop) (l : list A)
    (cells : list (list B)) :
  Forall2 P l cells ->
  Forall (fun a => forall c, P a c -> exists b, c = [b]) l ->
  Forall2 (fun a b => P a [b]) l (concat cells).
Proof.
  induction 1 as [|a c l cells Hac _ IH]; intros Hall; [constructor|].
  apply Forall_cons in Hall as [Ha Hl].
  destruct (Ha c Hac) as [b ->]. cbn [concat app].
  constructor; [exact Hac|apply IH, Hl].
Qed.

(** X10. In exact arithmetic no grid point is ever left out: the grid
    only reaches [x < 2.9], so every jittered centre is farther than 1.1
    from the feature point [(4, 0.2, 0)] and the test [> 0.9] always
    passes.  The scene has 40 spheres: the ground, one small sphere for
    each of the 36 grid points, in the order they are visited, and the
    three feature spheres. *)
Theorem random_scene_full_grid (s : process) :
  (forall g, 0 <= fst (rand g) <= RAND_MAX) ->
  exists smalls : list (sphere double),
    fst (random_scene s) = [ground_sphere] ++ smalls ++ feature_spheres
    /\ Forall2 (fun ab sp => grid_cell (fst ab) (snd ab) [sp]) grid smalls
    /\ List.length smalls = 36%nat
    /\ List.length (fst (random_scene s)) = 40%nat.
Proof.
  intros Hrand.
  assert (HM : 0 <= RAND_MAX) by (specialize (Hrand (rng s)); lia).
  destruct (random_scene_spec Hrand s) as (cells & Hcells & Hworld).
  assert (Hsmalls : Forall2 (fun ab sp => grid_cell (fst ab) (snd ab) [sp])
                      grid (concat cells)).
  { apply (singleton_cells (fun ab cell => grid_cell (fst ab) (snd ab) cell));
      [exact Hcells|].
    eapply Forall_impl; [apply grid_first_coordinate|].
    intros [a b] Ha cell Hcell. apply (grid_cell_full a b cell HM Ha Hcell). }
  assert (Hlen : List.length (concat cells) = 36%nat).
  { rewrite <- (Forall2_length _ _ _ Hsmalls). reflexivity. }
  exists (concat cells). split; [exact Hworld|]. split; [exact Hsmalls|].
  split; [exact Hlen|].
  rewrite Hworld, !length_app, Hlen. reflexivity.
Qed.

End Geometry.

(** *** main.cpp: multithreaded_raytracing under any schedule *)

Section Schedules.

Context {double : Type} {ops : DoubleOps double} {libc : LibC}
        {headers : Headers double}.

Lemma admissible_start_order : admissible (fun threads => threads).
Proof. intros threads. reflexivity. Qed.

Lemma admissible_reverse : admissible reverse.
Proof. intros threads. apply reverse_Permutation. Qed.

(** The start order is one of the schedules. *)
Lemma multithreaded_raytracing_start_order (thread_count image_width
    image_height : Z) (arr : matrix double) (samples_per_pixel max_depth : Z)
    (world : hittable_list double) (cam : camera) :
  multithreaded_raytracing thread_count image_width image_height arr
    samples_per_pixel max_depth world cam
  = multithreaded_raytracing_in (fun threads => threads) thread_count
      image_width image_height arr samples_per_pixel max_depth world cam.
Proof. reflexivity. Qed.

Lemma main_with_start_order (thread_count image_width : Z)
    (aspect_ratio : double) (samples_per_pixel max_depth : Z) :
  main_with thread_count image_width aspect_ratio samples_per_pixel max_depth
  = main_in (fun threads => threads) thread_count image_width aspect_ratio
      samples_per_pixel max_depth.
Proof.
  unfold main_with, main_in, multithreaded_raytracing_in,
    multithreaded_raytracing, run_threads.
  reflexivity.
Qed.

Variables (image_width image_height samples_per_pixel max_depth : Z).
Variables (world : hittable_list double) (cam : camera).
Variable arr : matrix double.

Local Abbreviation pixel :=
  (is_pixel image_width image_height samples_per_pixel max_depth world cam).

(** Some thread of [threads] has the row [j]. *)
Local Definition covered (threads : list (Z * Z)) (j : Z) : Prop :=
  Exists (fun th => fst th <= j <= snd th) threads.

(** The buffer once the workers [threads] have run on [arr]: their rows
    hold finished pixels, every other row is as it was, no cell was added
    or lost. *)
Local Definition rendered (threads : list (Z * Z)) (a : matrix double)
    : Prop :=
  (forall j i, in_matrix a j i <-> in_matrix arr j i)
  /\ (forall j i, covered threads j -> 0 <= i < image_width ->
        in_matrix arr j i -> pixel j i (fetch a j i))
  /\ (forall j i, ~ covered threads j -> fetch a j i = fetch arr j i).

Lemma rendered_worker (done : list (Z * Z)) (th : Z * Z)
    (a : matrix double) (s : process) :
  rendered done a ->
  rendered (done ++ [th])
    (fst (process_matrix_rows (fst th) (snd th) image_width image_height a
            samples_per_pixel max_depth world cam s)).
Proof.
  intros (Hshape & Hpix & Hrest).
  destruct (process_matrix_rows_pixels image_width image_height
              samples_per_pixel max_depth world cam (fst th) (snd th) a s)
    as (Hshape' & Hpix' & Hrest').
  split; [|split].
  - intros j i. rewrite Hshape'. apply Hshape.
  - intros j i Hcov Hi Hin.
    destruct (decide (fst th <= j <= snd th)) as [Hth|Hth].
    + apply Hpix'; [exact Hth|exact Hi|apply Hshape, Hin].
    + rewrite Hrest' by exact Hth. apply Hpix; [|exact Hi|exact Hin].
      apply Exists_app in Hcov as [Hcov|Hcov]; [exact Hcov|].
      apply Exists_cons in Hcov as [Hcov|Hcov]; [contradiction|].
      apply Exists_nil in Hcov. contradiction.
  - intros j i Hcov. rewrite Hrest'.
    + apply Hrest. intros Hdone. apply Hcov, Exists_app. left. exact Hdone.
    + intros Hth. apply Hcov, Exists_app. right. constructor. exact Hth.
Qed.

Lemma run_threads_rendered (threads done : list (Z * Z))
    (run : M (matrix double)) :
  yields (rendered done) run ->
  yields (rendered (done ++ threads))
    (fold_left
       (fun (run : M (matrix double)) (th : Z * Z) =>
          bind run (fun output_matrix =>
            process_matrix_rows (fst th) (snd th) image_width image_height
              output_matrix samples_per_pixel max_depth world cam))
       threads run).
Proof.
  revert done run. induction threads as [|th threads IH]; intros done run Hrun.
  - rewrite app_nil_r. exact Hrun.
  - cbn [fold_left].
    replace (done ++ th :: threads) with ((done ++ [th]) ++ threads)
      by (rewrite <- app_assoc; reflexivity).
    apply IH. intros s. unfold bind. specialize (Hrun s).
    destruct (run s) as [a s1]. apply rendered_worker. exact Hrun.
Qed.

Lemma run_threads_pixels (threads : list (Z * Z)) (s : process) :
  rendered threads
    (fst (run_threads threads image_width image_height arr samples_per_pixel
            max_depth world cam s)).
Proof.
  unfold run_threads. apply (run_threads_rendered threads [] (ret arr)).
  intros s'. cbn [ret fst]. split; [reflexivity|]. split; [|reflexivity].
  intros j i Hcov. apply Exists_nil in Hcov. contradiction.
Qed.

Lemma covered_schedule (schedule : list (Z * Z) -> list (Z * Z))
    (threads : list (Z * Z)) (j : Z) :
  admissible schedule -> covered (schedule threads) j <-> covered threads j.
Proof.
  intros Hadm. unfold covered. rewrite !Exists_exists.
  split; intros (th & Hth & Hj); exists th; (split; [|exact Hj]).
  - rewrite <- (Hadm threads). exact Hth.
  - rewrite (Hadm threads). exact Hth.
Qed.

Lemma covered_thread_list (N H j : Z) :
  0 < N -> 0 <= H ->
  covered (thread_list N H) j <-> 0 <= j < N * (H / N).
Proof.
  intros HN HH. unfold covered. rewrite Exists_exists.
  assert (Hq : 0 <= H / N) by (apply Z.div_pos; lia).
  split.
  - intros (th & Hth & Hj). apply thread_list_rows in Hth; lia.
  - intros Hj. assert (Hq' : 0 < H / N) by nia.
    exists (j / (H / N) * (H / N), j / (H / N) * (H / N) + H / N - 1).
    pose proof (Z.div_mod j (H / N) ltac:(lia)) as Hdm.
    pose proof (Z.mod_pos_bound j (H / N) Hq') as Hmod.
    split; [|cbn [fst snd]; lia].
    destruct (thread_list_partition N H HN HH) as (_ & Hk & _).
    assert (Hrange : 0 <= j / (H / N) < N).
    { split; [apply Z.div_pos; lia|].
      apply Z.div_lt_upper_bound; [lia|]. lia. }
    eapply list_elem_of_lookup_2. apply (Hk (j / (H / N)) Hrange).
Qed.

(** C5. For [N > 0] workers and a height [H >= 0], with [q] the integer
    quotient of [H] by [N], [multithreaded_raytracing] starts [N] threads,
    the [k]-th on the rows [k*q .. k*q + q - 1]: each band has exactly [q]
    rows; the bands laid end to end are the rows [0 .. N*q - 1], each once
    and in order (so they are contiguous and pairwise disjoint); every row
    below [N*q] has exactly one worker, hence every row of the image when
    [N] divides [H]; the [H mod N] rows from [N*q] to [H - 1] have none.
    And that is what is rendered, in whatever order the workers get to
    run: when [multithreaded_raytracing] returns, every cell of the rows
    [0 .. N*q - 1] holds its finished pixel ([format_color] of the sum of
    [samples_per_pixel] samples) and every other row of the buffer is as
    it was.  [multithreaded_raytracing] is the case of the start order. *)
Theorem multithreaded_raytracing_partition
    (schedule : list (Z * Z) -> list (Z * Z)) (N : Z) (s : process) :
  admissible schedule -> 0 < N -> 0 <= image_height ->
  let H := image_height in
  let q := H / N in
  let threads := thread_list N H in
  let a := fst (multithreaded_raytracing_in schedule N image_width H arr
                  samples_per_pixel max_depth world cam s) in
  List.length threads = Z.to_nat N
  /\ (forall k, 0 <= k < N ->
        threads !! Z.to_nat k = Some (k * q, k * q + q - 1))
  /\ Forall (fun th => List.length (band_rows th) = Z.to_nat q) threads
  /\ concat (band_rows <$> threads) = seqZ 0 (N * q)
  /\ (forall j, 0 <= j < N * q -> List.length (workers_of_row threads j) = 1%nat)
  /\ (H mod N = 0 ->
      forall j, 0 <= j < H -> List.length (workers_of_row threads j) = 1%nat)
  /\ (forall j, N * q <= j < H -> workers_of_row threads j = [])
  /\ H - N * q = H mod N
  /\ (forall j i, 0 <= j < N * q -> 0 <= i < image_width ->
        in_matrix arr j i ->
        is_pixel image_width H samples_per_pixel max_depth world cam j i
          (fetch a j i))
  /\ (forall j i, ~ (0 <= j < N * q) -> fetch a j i = fetch arr j i)
  /\ multithreaded_raytracing N image_width H arr samples_per_pixel max_depth
       world cam
     = multithreaded_raytracing_in (fun threads => threads) N image_width H
         arr samples_per_pixel max_depth world cam.
Proof.
  intros Hadm HN HH H q threads a.
  destruct (thread_list_partition N H HN HH)
    as (Hlen & Hk & Hrows & Hcat & Hone & Hdiv & Hnone & Hmod).
  split; [exact Hlen|]. split; [exact Hk|]. split; [exact Hrows|].
  split; [exact Hcat|]. split; [exact Hone|]. split; [exact Hdiv|].
  split; [exact Hnone|]. split; [exact Hmod|].
  destruct (run_threads_pixels (schedule threads) s) as (_ & Hpix & Hrest).
  split; [|split; [|reflexivity]].
  - intros j i Hj Hi Hin. apply Hpix; [|exact Hi|exact Hin].
    apply covered_schedule; [exact Hadm|].
    apply covered_thread_list; assumption.
  - intros j i Hj. apply Hrest. intros Hcov. apply Hj.
    apply covered_schedule in Hcov; [|exact Hadm].
    apply covered_thread_list in Hcov; assumption.
Qed.

End Schedules.

(** ** Concrete runs of the further properties *)

Section FurtherRuns.

Import Binary64 Demo.

Local Existing Instance Demo.libc.
Local Existing Instance Demo.headers.

Local Open Scope string_scope.

(** Twenty workers on two hundred rows, the values of the macros. *)
Lemma thread_list_in_buffer_witness :
  0 < 20 /\ 0 <= 200
  /\ Forall (fun th => 0 <= fst th /\ snd th < 200
                       /\ snd th + 1 - fst th = 200 / 20)
       (thread_list 20 200).
Proof.
  assert (HN : 0 < 20) by lia. assert (HH : 0 <= 200) by lia.
  split; [exact HN|]. split; [exact HH|].
  exact (proj1 (thread_list_in_buffer 20 200) HN HH).
Defined.

(** A worker on row 0 of a 2x2 buffer leaves row 1 alone. *)
Lemma process_matrix_rows_band_witness :
  ~ (0 <= 1 <= 0)
  /\ fetch (fst (process_matrix_rows 0 0 2 2 (image_matrix 2 2) 1 3
                   (ball (lambertian gray)) tt (start true))) 1 0
     = fetch (image_matrix 2 2 : matrix spec_float) 1 0.
Proof.
  assert (Hrow : ~ (0 <= 1 <= 0)) by lia.
  split; [exact Hrow|].
  exact (proj1 (process_matrix_rows_band 0 0 2 2 (image_matrix 2 2) 1 3
                  (ball (lambertian gray)) tt (start true)) 1 0 Hrow).
Defined.

(** Five workers on two rows: nothing is rendered. *)
Lemma render_nothing_witness :
  (5 < 0 \/ 0 <= height_of 2 (dec 10 1) < 5)
  /\ fst (render 5 2 (dec 10 1) 1 3 (start true))
     = image_matrix 2 (height_of 2 (dec 10 1)).
Proof.
  assert (E : height_of 2 (dec 10 1) = 2) by (vm_compute; reflexivity).
  assert (H : 5 < 0 \/ 0 <= height_of 2 (dec 10 1) < 5)
    by (right; rewrite E; lia).
  split; [exact H|].
  exact (f_equal fst (render_nothing 5 2 (dec 10 1) 1 3 (start true) H)).
Defined.

(** A worker on both rows of a 2x2 buffer, one sample per pixel: the
    cell (1, 1) holds [format_color] of its one sample. *)
Lemma process_matrix_rows_writes_witness :
  0 <= 1 <= 1 /\ 0 <= 1 < 2
  /\ in_matrix (image_matrix 2 2 : matrix spec_float) 1 1
  /\ exists c,
       is_sample 2 2 3 (ball (lambertian gray)) tt 1 1 c
       /\ fetch (fst (process_matrix_rows 0 1 2 2 (image_matrix 2 2) 1 3
                        (ball (lambertian gray)) tt (start true))) 1 1
          = format_color (vec3_add (vec3_int 0 0 0) c) 1.
Proof.
  assert (Hj : 0 <= 1 <= 1) by lia. assert (Hi : 0 <= 1 < 2) by lia.
  assert (Hin : in_matrix (image_matrix 2 2 : matrix spec_float) 1 1).
  { split; [lia|]. split; [lia|].
    exists [vec3_int 0 0 0; vec3_int 0 0 0].
    split; [vm_compute; reflexivity|cbn; lia]. }
  split; [exact Hj|]. split; [exact Hi|]. split; [exact Hin|].
  destruct (process_matrix_rows_writes (headers := Demo.headers) 2 2 1 3
              (ball (lambertian gray)) tt 0 1 (image_matrix 2 2) (start true)
              1 1 Hj Hi Hin)
    as (samples & Hlen & Hall & Hcell).
  destruct samples as [|c [|c' samples]]; [discriminate Hlen| |discriminate Hlen].
  exists c. split; [|exact Hcell].
  apply Forall_cons in Hall as [Hc _]. exact Hc.
Defined.

(** The progress lines of a worker on two rows. *)
Example worker_progress_run :
  (fun s => (current_progress s, total_progress s, cerr s))
    (snd (process_matrix_rows 0 1 2 2 (image_matrix 2 2) 1 3
            (ball (lambertian gray)) tt (start true)))
  = (2, 100,
     carriage_return ++ "Processing row: 1/100 "
     ++ carriage_return ++ "Processing row: 2/100 ").
Proof. vm_compute. reflexivity. Qed.

(** The file cannot be opened: the render has run, the status is 1. *)
Lemma main_renders_first_witness :
  writable (start false) = false
  /\ main_with 2 2 (dec 10 1) 1 3 (start false)
     = (1, appended ("Error: output file could not be opened." ++ newline) ""
             (snd (render 2 2 (dec 10 1) 1 3 (start false)))).
Proof.
  assert (Hw : writable (start false) = false) by reflexivity.
  split; [exact Hw|].
  exact (proj2 (proj2 (proj2 (proj2
           (main_renders_first 2 2 (dec 10 1) 1 3 (start false))))) Hw).
Defined.

End FurtherRuns.

(** [clamp] in the reals: 7 clamped to [0, 5] is 5. *)
Lemma clamp_range_witness :
  (0 <= 5)%R /\ clamp (ops := Ideal.real_ops 0) 7%R 0%R 5%R = 5%R.
Proof.
  assert (H05 : (0 <= 5)%R) by lra.
  split; [exact H05|].
  apply (proj1 (proj2 (proj2 (proj2
           (clamp_range (ops := Ideal.real_ops 0) (fun v => v)
              (real_ops_exact 0) 7%R 0%R 5%R H05))))).
  lra.
Defined.

(** The scene in the reals, for the draws of the stand-in generator. *)
Lemma random_scene_full_grid_witness :
  (forall g : rand_state (LibC := Demo.libc),
      0 <= fst (rand g) <= RAND_MAX (LibC := Demo.libc))
  /\ List.length (fst (random_scene (ops := Ideal.real_ops 0)
                         (Demo.start true))) = 40%nat.
Proof.
  split; [exact demo_rand_range|].
  destruct (random_scene_full_grid (ops := Ideal.real_ops 0) (fun v => v)
              (real_ops_exact 0) (fun v => eq_refl) (Demo.start true)
              demo_rand_range) as (smalls & _ & _ & _ & H).
  exact H.
Defined.

Section ScheduleRuns.

Import Binary64 Demo.

Local Existing Instance Demo.libc.
Local Existing Instance Demo.headers.

Local Open Scope string_scope.

(** C9, refuted on the code.  Two runs of the renderer with the same
    configuration (two workers, a 2x2 image, one sample per pixel) and the
    same draws of [rand()] leave different files when the workers get to
    run in a different order: the workers share [rand()], so a pixel gets
    whichever draws come next.  Both orders are schedules of the program;
    [main_with] is the first. *)
Theorem schedule_changes_image :
  let config schedule := main_in schedule 2 2 (dec 10 1) 1 3 (start true) in
  admissible (fun threads => threads) /\ admissible reverse
  /\ main_with 2 2 (dec 10 1) 1 3 (start true) = config (fun threads => threads)
  /\ lines <$> image_ppm (snd (config (fun threads => threads)))
     = Some ["P3"; "2 2"; "255"; "142 187 255"; "145 189 255"; "180 210 255";
             "180 210 255"]
  /\ lines <$> image_ppm (snd (config reverse))
     = Some ["P3"; "2 2"; "255"; "143 188 255"; "146 189 255"; "177 208 255";
             "178 209 255"]
  /\ image_ppm (snd (config (fun threads => threads)))
     <> image_ppm (snd (config reverse)).
Proof.
  intros config.
  assert (Hstart : lines <$> image_ppm (snd (config (fun threads => threads)))
                   = Some ["P3"; "2 2"; "255"; "142 187 255"; "145 189 255";
                           "180 210 255"; "180 210 255"])
    by (vm_compute; reflexivity).
  assert (Hreverse : lines <$> image_ppm (snd (config reverse))
                     = Some ["P3"; "2 2"; "255"; "143 188 255"; "146 189 255";
                             "177 208 255"; "178 209 255"])
    by (vm_compute; reflexivity).
  split; [apply admissible_start_order|]. split; [apply admissible_reverse|].
  split; [unfold config; rewrite main_with_start_order; reflexivity|].
  split; [exact Hstart|]. split; [exact Hreverse|].
  intros E. rewrite E, Hreverse in Hstart. revert Hstart. clear.
  intros [=].
Qed.

(** X2. On IEEE doubles [random_double(min, max)] can return [max]
    itself, against the comment in the source ("returns a random real in
    [min,max)"): with [RAND_MAX = 2^31 - 1], [min = 2^54], [max = 2^54 + 4]
    and [rand()] returning [RAND_MAX], the product [(max - min) * r] is
    [4 - 2^-29], which the sum with [min] rounds to 4.  (For the two ranges
    [random_scene] asks for, (0.5, 1) and (0, 0.5), the same draw gives a
    value below [max].) *)
Theorem random_double_reaches_max :
  let s := mk_process [2147483647] 0 0 "" true None in
  let min : spec_float := d_of_int (2 ^ 54) in
  let max : spec_float := d_of_int (2 ^ 54 + 4) in
  RAND_MAX = 2147483647
  /\ fst (rand (rng s)) = RAND_MAX
  /\ (min <? max)%D = true
  /\ (fst (random_double s) <? d_of_int 1)%D = true
  /\ fst (random_double_in min max s) = max
  /\ (fst (random_double_in min max s) <? max)%D = false
  /\ (fst (random_double_in (dec 5 1) (d_of_int 1) s) <? d_of_int 1)%D = true
  /\ (fst (random_double_in (d_of_int 0) (dec 5 1) s) <? dec 5 1)%D = true.
Proof.
  intros s min max.
  split; [reflexivity|]. split; [reflexivity|].
  split; [vm_compute; reflexivity|]. split; [vm_compute; reflexivity|].
  split; [vm_compute; reflexivity|]. split; [vm_compute; reflexivity|].
  split; vm_compute; reflexivity.
Qed.

Lemma sky_underflow (r : ray spec_float) (sgn : bool) (m : positive) (e : Z) :
  length (direction r) = S754_zero false ->
  y (direction r) = S754_finite sgn m e ->
  sky r = mk_vec3 S754_nan S754_nan S754_nan.
Proof.
  intros Hlen Hy. unfold sky, unit_vector, vec3_div, vec3_scale. cbn [y].
  rewrite Hlen, Hy.
  replace (d_of_int 1 / S754_zero false)%D with (S754_infinity false)
    by (vm_compute; reflexivity).
  destruct sgn; vm_compute; reflexivity.
Qed.

(** X11. On IEEE doubles the colour of a ray that hits nothing is not
    always a colour of the gradient.  When the length of the direction
    computes to zero although its vertical component is a finite number
    other than zero (the squares underflow), [unit_vector] divides by
    zero, the normalized vertical component is infinite, and [ray_color]
    returns NaN in all three channels. *)
Theorem miss_color_underflow {W} `{!hittable spec_float W}
    (r : ray spec_float) (world : W) (depth : Z) (s : process) :
  0 < depth -> hit world r MIN_HIT_LIMIT infinity = None ->
  length (direction r) = S754_zero false ->
  (exists sgn m e, y (direction r) = S754_finite sgn m e) ->
  fst (ray_color r world depth s) = mk_vec3 S754_nan S754_nan S754_nan.
Proof.
  intros Hdepth Hmiss Hlen (sgn & m & e & Hy).
  rewrite ray_color_no_hit by assumption. cbn [fst].
  exact (sky_underflow r sgn m e Hlen Hy).
Qed.

(** The direction (1e-200, 1e-200, 0). *)
Lemma miss_color_underflow_witness :
  let r := mk_ray (vec3_int 0 0 0)
             (mk_vec3 (dec 1 200) (dec 1 200) (d_of_int 0)) in
  0 < 1
  /\ length (direction r) = S754_zero false
  /\ y (direction r) = S754_finite false 6894565328877484 (-717)
  /\ fst (ray_color r empty_scene 1 (start true))
     = mk_vec3 S754_nan S754_nan S754_nan.
Proof.
  intros r.
  assert (Hdepth : 0 < 1) by lia.
  assert (Hlen : length (direction r) = S754_zero false)
    by (vm_compute; reflexivity).
  assert (Hy : y (direction r) = S754_finite false 6894565328877484 (-717))
    by (vm_compute; reflexivity).
  split; [exact Hdepth|]. split; [exact Hlen|]. split; [exact Hy|].
  apply (miss_color_underflow r empty_scene 1 (start true) Hdepth eq_refl Hlen).
  exists false, 6894565328877484%positive, (-717). exact Hy.
Defined.

(** Two workers on three rows, run in reverse order: the cell (0, 0) holds
    its finished pixel, row 2 is left as it was. *)
Lemma multithreaded_raytracing_partition_witness :
  let a := fst (multithreaded_raytracing_in reverse 2 2 3 (image_matrix 2 3)
                  1 3 (ball (lambertian gray)) tt (start true)) in
  admissible reverse /\ 0 < 2 /\ 0 <= 3
  /\ thread_list 2 3 = [(0, 0); (1, 1)]
  /\ is_pixel 2 3 1 3 (ball (lambertian gray)) tt 0 0 (fetch a 0 0)
  /\ fetch a 2 0 = fetch (image_matrix 2 3) 2 0.
Proof.
  intros a.
  assert (HN : 0 < 2) by lia. assert (HH : 0 <= 3) by lia.
  assert (Hin : in_matrix (image_matrix 2 3 : matrix spec_float) 0 0).
  { split; [lia|]. split; [lia|].
    exists [vec3_int 0 0 0; vec3_int 0 0 0].
    split; [vm_compute; reflexivity|cbn; lia]. }
  split; [exact admissible_reverse|]. split; [exact HN|]. split; [exact HH|].
  split; [reflexivity|].
  destruct (multithreaded_raytracing_partition (headers := Demo.headers) 2 3
              1 3 (ball (lambertian gray)) tt (image_matrix 2 3) reverse 2
              (start true) admissible_reverse HN HH)
    as (_ & _ & _ & _ & _ & _ & _ & _ & Hpix & Hrest & _).
  split.
  - apply Hpix; [vm_compute; split; [intros [=]|reflexivity]|lia|exact Hin].
  - apply Hrest. vm_compute. intros [_ Hlt]. discriminate Hlt.
Defined.

End ScheduleRuns.

(** The modelled [format_color] on IEEE doubles: a 2x2 image of sky. *)
Example output_file_spec_format_doubles :
  lines <$> image_ppm (snd (main_with (ops := Binary64.binary64)
                              (headers := Void.headers
                                            (ops := Binary64.binary64)
                                            (libc := Demo.libc))
                              2 2 (dec (ops := Binary64.binary64) 10 1) 1 3
                              (Demo.start true)))
  = Some ["P3"; "2 2"; "255"; "220 235 255"; "220 235 255"; "220 235 255";
          "220 235 255"]%string.
Proof. vm_compute. reflexivity. Qed.

